(** * Organizza Consigli di Classe: the organizer pipeline

    A shallow embedding of [organizer.py] (and of the main flow of [app.py])
    together with the properties of the registry, the conflict graph, the
    greedy grouper, the table assembler and the row validator.

    Conventions of the embedding.
    - A Python [str] is a Rocq [string]; a character stands for the code
      point of the same number, so the strings covered are those over the
      code points 0..255.
    - A [dict] is a [gmap], a [set] is a [gset]; a subscript [d[k]] on a
      missing key raises [KeyError].
    - Exceptions are values of the error monad [result].
    - A Python [int] is a [Z]; [len] is [length] (or [size]) seen in [Z]
      where it is compared with an [int]. *)

From Stdlib Require Import Ascii.
From stdpp Require Import gmap strings list sorting.

Local Open Scope string_scope.
Local Open Scope Z_scope.

#[local] Set Warnings "-clear-no-such-hyp".

(** ** Exceptions *)

Inductive exn :=
  | KeyError
  | ValueError (msg : string).

Inductive result (A : Type) :=
  | Ok (a : A)
  | Raise (e : exn).
Arguments Ok {A} a.
Arguments Raise {A} e.

#[global] Instance result_ret : MRet result := λ A a, Ok a.
#[global] Instance result_bind : MBind result := λ A B f m,
  match m with Ok a => f a | Raise e => Raise e end.

(** [d[k]] *)
Definition getitem `{Countable K} {V} (d : gmap K V) (k : K) : result V :=
  match d !! k with Some v => Ok v | None => Raise KeyError end.

(** A [for] loop whose body may raise, threading the loop state. *)
Fixpoint for_each {A S} (body : A → S → result S) (l : list A) (s : S)
  : result S :=
  match l with
  | [] => Ok s
  | x :: l' => s' ← body x s; for_each body l' s'
  end.

(** [range(a, b)] *)
Definition py_range (a b : Z) : list Z := seqZ a (b - a).

(** ** Python string primitives *)

Module Py.

Definition code (a : ascii) : N := N_of_ascii a.

(** [str.isspace] on one character: the characters [str.strip()] removes. *)
Definition is_space (a : ascii) : bool :=
  let n := code a in
  ((9 <=? n) && (n <=? 13) || (28 <=? n) && (n <=? 32)
   || (n =? 133) || (n =? 160))%N.

Fixpoint lstrip (s : string) : string :=
  match s with
  | EmptyString => EmptyString
  | String a s' => if is_space a then lstrip s' else s
  end.

Definition rstrip (s : string) : string :=
  String.rev (lstrip (String.rev s)).

(** [s.strip()] *)
Definition strip (s : string) : string := rstrip (lstrip s).

Definition lower_char (a : ascii) : ascii :=
  let n := code a in
  if ((65 <=? n) && (n <=? 90)
      || (192 <=? n) && (n <=? 222) && negb (n =? 215))%N
  then ascii_of_N (n + 32) else a.

(** [s.lower()] *)
Fixpoint lower (s : string) : string :=
  match s with
  | EmptyString => EmptyString
  | String a s' => String (lower_char a) (lower s')
  end.

(** The character class [[1-5]]. *)
Definition is_year_digit (a : ascii) : bool :=
  ((49 <=? code a) && (code a <=? 53))%N.

(** The character class [[A-Z]]. *)
Definition is_upper (a : ascii) : bool :=
  ((65 <=? code a) && (code a <=? 90))%N.

(** [int(d)] for a decimal digit [d]. *)
Definition int_of_digit (a : ascii) : Z := Z.of_N (code a) - 48.

(** [re.fullmatch(r"([1-5])([A-Z])", s)]: the two groups of the match. *)
Definition fullmatch_class (s : string) : option (ascii * ascii) :=
  match s with
  | String d (String l EmptyString) =>
      if is_year_digit d && is_upper l then Some (d, l) else None
  | _ => None
  end.

End Py.

(** ** [parse_class] *)

Definition parse_class (col : string) : option (Z * string) :=
  match Py.fullmatch_class (Py.strip col) with
  | Some (d, l) => Some (Py.int_of_digit d, String l EmptyString)
  | None => None
  end.

(** ** Data frames

    The frame [pd.read_csv] hands to [load_df]: the header and the rows,
    one cell per column.  Header names are unique ([read_csv] renames
    repeated ones); a cell is missing ([NaN]) or holds a value, kept as the
    string [astype(str)] gives for it. *)

Inductive cell :=
  | NaN
  | Val (s : string).

Record DataFrame := mkDataFrame {
  columns : list string;
  rows : list (list cell)
}.

Definition astype_str (c : cell) : string :=
  match c with NaN => "nan" | Val s => s end.

Definition notna (c : cell) : bool :=
  match c with NaN => false | Val _ => true end.

Definition col_index (c : string) (cols : list string) : option nat :=
  fst <$> list_find (λ x, x = c) cols.

Definition cell_at (r : list cell) (i : nat) : cell := default NaN (r !! i).

(** [df[c]] *)
Definition get_col (df : DataFrame) (c : string) : result (list cell) :=
  match col_index c (columns df) with
  | Some i => Ok ((λ r, cell_at r i) <$> rows df)
  | None => Raise KeyError
  end.

(** [df.rename(columns={c: new})] *)
Definition rename (df : DataFrame) (c new : string) : DataFrame :=
  mkDataFrame ((λ x, if decide (x = c) then new else x) <$> columns df)
              (rows df).

(** [df[c] = values], for a column [c] of the frame. *)
Definition set_col (df : DataFrame) (c : string) (values : list cell)
  : DataFrame :=
  match col_index c (columns df) with
  | Some i =>
      mkDataFrame (columns df)
        (zip_with (λ r v, <[i := v]> (r ++ replicate (S i - length r)%nat NaN)%list)
                  (rows df) values)
  | None => df
  end.

(** ** [load_df]

    [load_df] after its call of [pd.read_csv]: the argument is the parsed
    frame. *)

Definition is_docente (c : string) : bool :=
  bool_decide (Py.lower (Py.strip c) = "docente").

Definition normalize_docente (df : DataFrame) : DataFrame :=
  if decide ("Docente" ∈ columns df) then df
  else match list_find (λ c, is_docente c = true) (columns df) with
       | Some (_, c) => rename df c "Docente"
       | None => df
       end.

(** The error of the missing teacher column, a [ValueError]. *)
Definition MissingColumnError : exn :=
  ValueError "Colonna 'Docente' non trovata nel CSV.".

Definition load_df (parsed : DataFrame) : result DataFrame :=
  let df := normalize_docente parsed in
  if decide ("Docente" ∈ columns df) then
    docente ← get_col df "Docente";
    Ok (set_col df "Docente" ((λ c, Val (Py.strip (astype_str c))) <$> docente))
  else Raise MissingColumnError.

(** ** [build_class_teacher_map] *)

(** [df[c].astype(str).str.strip().ne("") & df[c].notna()] on one cell. *)
Definition mask_cell (c : cell) : bool :=
  bool_decide (Py.strip (astype_str c) ≠ "") && notna c.

(** [set(df.loc[mask, "Docente"].astype(str).str.strip())] *)
Definition teachers_of (df : DataFrame) (c : string) : result (gset string) :=
  col ← get_col df c;
  docente ← get_col df "Docente";
  Ok (list_to_set
        (omap (λ '(m, d), if mask_cell m
                          then Some (Py.strip (astype_str d)) else None)
              (zip col docente))).

Definition class_cols (df : DataFrame) : list string :=
  filter (λ c, c ≠ "Docente") (columns df).

Definition valid_cols (df : DataFrame) : list string :=
  filter (λ c, is_Some (parse_class c)) (class_cols df).

Definition build_class_to_teachers (df : DataFrame) (cols : list string)
  : result (gmap string (gset string)) :=
  for_each (λ c m, teachers ← teachers_of df c; Ok (<[c := teachers]> m))
           cols ∅.

(** [{parsed[c]: c for c in valid_cols}]; every [c] of [valid_cols] parses. *)
Definition build_year_letter_to_class (cols : list string)
  : gmap (Z * string) string :=
  foldl (λ m c, match parse_class c with
                | Some k => <[k := c]> m
                | None => m
                end) ∅ cols.

(** [sorted(s)] for a set of strings. *)
Definition sorted_set (s : gset string) : list string :=
  merge_sort String.le (elements s).

Definition letters_of (ylc : gmap (Z * string) string) : list string :=
  sorted_set (set_map snd (dom ylc)).

Definition is_complete (ylc : gmap (Z * string) string) (ltr : string) : bool :=
  forallb (λ y, bool_decide (is_Some (ylc !! (y, ltr)))) (py_range 1 6).

Definition complete_letters_of (ylc : gmap (Z * string) string) : list string :=
  filter (λ ltr, is_complete ylc ltr = true) (letters_of ylc).

Definition build_class_teacher_map (df : DataFrame)
  : result (list string * gmap string (gset string)
            * gmap (Z * string) string * list string) :=
  let valid := valid_cols df in
  class_to_teachers ← build_class_to_teachers df valid;
  let year_letter_to_class := build_year_letter_to_class valid in
  Ok (valid, class_to_teachers, year_letter_to_class,
      complete_letters_of year_letter_to_class).

(** ** [letters_conflict_graph] *)

Definition years : list Z := py_range 1 6.

(** [class_to_teachers[c1] & class_to_teachers[c2]] as a condition, for the
    classes of the letters [L1] and [L2] in the year [y]. *)
Definition share_teachers (class_to_teachers : gmap string (gset string))
    (year_letter_to_class : gmap (Z * string) string)
    (y : Z) (L1 L2 : string) : result bool :=
  c1 ← getitem year_letter_to_class (y, L1);
  c2 ← getitem year_letter_to_class (y, L2);
  t1 ← getitem class_to_teachers c1;
  t2 ← getitem class_to_teachers c2;
  Ok (bool_decide (t1 ∩ t2 ≠ ∅)).

(** The loop over the years, left at the first year with a shared teacher;
    the value tells whether the loop was left by [break]. *)
Fixpoint first_shared_year (class_to_teachers : gmap string (gset string))
    (year_letter_to_class : gmap (Z * string) string)
    (ys : list Z) (L1 L2 : string) : result bool :=
  match ys with
  | [] => Ok false
  | y :: ys' =>
      b ← share_teachers class_to_teachers year_letter_to_class y L1 L2;
      if (b : bool) then Ok true
      else first_shared_year class_to_teachers year_letter_to_class ys' L1 L2
  end.

(** [conflicts[L1].add(L2); conflicts[L2].add(L1)] *)
Definition add_conflict (L1 L2 : string) (conflicts : gmap string (gset string))
  : result (gmap string (gset string)) :=
  s1 ← getitem conflicts L1;
  let conflicts1 := <[L1 := s1 ∪ {[L2]}]> conflicts in
  s2 ← getitem conflicts1 L2;
  Ok (<[L2 := s2 ∪ {[L1]}]> conflicts1).

Definition check_pair (class_to_teachers : gmap string (gset string))
    (year_letter_to_class : gmap (Z * string) string)
    (L1 L2 : string) (conflicts : gmap string (gset string))
  : result (gmap string (gset string)) :=
  b ← first_shared_year class_to_teachers year_letter_to_class years L1 L2;
  if (b : bool) then add_conflict L1 L2 conflicts else Ok conflicts.

(** [for i, L1 in enumerate(letters): for L2 in letters[i+1:]: ...] *)
Fixpoint conflict_loop (class_to_teachers : gmap string (gset string))
    (year_letter_to_class : gmap (Z * string) string)
    (letters : list string) (conflicts : gmap string (gset string))
  : result (gmap string (gset string)) :=
  match letters with
  | [] => Ok conflicts
  | L1 :: rest =>
      conflicts' ← for_each
        (check_pair class_to_teachers year_letter_to_class L1) rest conflicts;
      conflict_loop class_to_teachers year_letter_to_class rest conflicts'
  end.

(** [{L: set() for L in letters}] *)
Definition empty_conflicts (letters : list string) : gmap string (gset string) :=
  foldl (λ m L, <[L := ∅]> m) ∅ letters.

Definition letters_conflict_graph (letters : list string)
    (class_to_teachers : gmap string (gset string))
    (year_letter_to_class : gmap (Z * string) string)
  : result (gmap string (gset string)) :=
  conflict_loop class_to_teachers year_letter_to_class letters
                (empty_conflicts letters).

(** ** [greedy_group_letters] *)

Fixpoint map_result {A B} (f : A → result B) (l : list A) : result (list B) :=
  match l with
  | [] => Ok []
  | x :: l' => y ← f x; ys ← map_result f l'; Ok (y :: ys)
  end.

(** [sorted(l, key=key, reverse=True)].  The keys are computed first, one
    per element; the list is then put in descending order of key, elements
    of equal key keeping the order they had ([sorted] is stable, also with
    [reverse=True]). *)
Fixpoint insert_desc {A} (kx : Z * A) (l : list (Z * A)) : list (Z * A) :=
  match l with
  | [] => [kx]
  | ky :: l' =>
      if decide (ky.1 ≤ kx.1) then kx :: ky :: l' else ky :: insert_desc kx l'
  end.

Definition sort_desc {A} (l : list (Z * A)) : list (Z * A) :=
  foldr insert_desc [] l.

Definition sorted_by_key_reverse {A} (key : A → result Z) (l : list A)
  : result (list A) :=
  decorated ← map_result (λ x, k ← key x; Ok (k, x)) l;
  Ok (snd <$> sort_desc decorated).

(** [len(conflicts[L])] *)
Definition degree (conflicts : gmap string (gset string)) (L : string)
  : result Z :=
  s ← getitem conflicts L; Ok (Z.of_nat (size s)).

(** [all(L not in conflicts[other] for other in g)] *)
Fixpoint no_conflict_in (conflicts : gmap string (gset string)) (L : string)
    (g : list string) : result bool :=
  match g with
  | [] => Ok true
  | other :: g' =>
      s ← getitem conflicts other;
      if decide (L ∈ s) then Ok false else no_conflict_in conflicts L g'
  end.

(** [len(g) < max_group_size and all(...)] *)
Definition fits (conflicts : gmap string (gset string)) (max_group_size : Z)
    (L : string) (g : list string) : result bool :=
  if decide (Z.of_nat (length g) < max_group_size)
  then no_conflict_in conflicts L g
  else Ok false.

(** The scan of the groups for one letter: [g.append(L)] on the first group
    that fits, [groups.append([L])] when none does. *)
Fixpoint place (conflicts : gmap string (gset string)) (max_group_size : Z)
    (L : string) (groups : list (list string)) : result (list (list string)) :=
  match groups with
  | [] => Ok [[L]]
  | g :: groups' =>
      b ← fits conflicts max_group_size L g;
      if (b : bool) then Ok ((g ++ [L])%list :: groups')
      else groups'' ← place conflicts max_group_size L groups';
           Ok (g :: groups'')
  end.

Definition greedy_group_letters (letters : list string)
    (conflicts : gmap string (gset string)) (max_group_size : Z)
  : result (list (list string)) :=
  letters_sorted ← sorted_by_key_reverse (degree conflicts) letters;
  for_each (place conflicts max_group_size) letters_sorted [].

(** ** [build_tables]

    A table is the triple [(gi, g, tab)]; the frame [tab], indexed by
    ["Anno"], is kept as its rows: the index label and the cells by column
    name.  As in a frame, the labels of the index are taken to be distinct
    and every row to have a cell, a string, for each column.  The year of
    a row is kept apart from its cells: the letters of a group are taken
    to differ from the key ["Anno"] under which the code stores the year
    in the same dictionary. *)

Definition Grid : Type := list (Z * gmap string string).

Record Table := mkTable {
  gi : Z;
  letters_of_group : list string;
  tab : Grid
}.

(** [row[L] = year_letter_to_class.get((y, L), "")] for the letters of [g]. *)
Definition build_row (year_letter_to_class : gmap (Z * string) string)
    (y : Z) (g : list string) : gmap string string :=
  foldl (λ row L, <[L := default "" (year_letter_to_class !! (y, L))]> row) ∅ g.

Definition build_grid (year_letter_to_class : gmap (Z * string) string)
    (g : list string) : Grid :=
  (λ y, (y, build_row year_letter_to_class y g)) <$> py_range 1 6.

Definition build_tables (groups : list (list string))
    (year_letter_to_class : gmap (Z * string) string) : list Table :=
  imap (λ i g, mkTable (Z.of_nat i + 1) g (build_grid year_letter_to_class g))
       groups.

(** ** [validate_rows] *)

(** [itertools.combinations(l, 2)] *)
Fixpoint combinations2 {A} (l : list A) : list (A * A) :=
  match l with
  | [] => []
  | x :: l' => (((λ y, (x, y)) <$> l') ++ combinations2 l')%list
  end.

(** The loop of [row_ok] over the pairs. *)
Fixpoint no_shared_teacher (class_to_teachers : gmap string (gset string))
    (pairs : list (string * string)) : result bool :=
  match pairs with
  | [] => Ok true
  | (c1, c2) :: pairs' =>
      t1 ← getitem class_to_teachers c1;
      t2 ← getitem class_to_teachers c2;
      if bool_decide (t1 ∩ t2 ≠ ∅) then Ok false
      else no_shared_teacher class_to_teachers pairs'
  end.

Definition row_ok (class_to_teachers : gmap string (gset string))
    (class_names : list string) : result bool :=
  let cl := filter (λ c, c ≠ "") class_names in
  no_shared_teacher class_to_teachers (combinations2 cl).

(** [tab.index] *)
Definition index (t : Grid) : list Z := fst <$> t.

(** [tab.loc[y, L]] for a label [y] that occurs once in the index (on a
    repeated label pandas returns a Series, not a cell). *)
Definition loc (t : Grid) (y : Z) (L : string) : result string :=
  match list_find (λ r, r.1 = y) t with
  | Some (_, (_, row)) => getitem row L
  | None => Raise KeyError
  end.

(** One record of the report; [valida] is rendered as "Sì" or "No". *)
Record Validation := mkValidation {
  tabella : Z;
  anno : Z;
  valida : bool
}.

Definition validate_table (class_to_teachers : gmap string (gset string))
    (t : Table) : result (list Validation) :=
  map_result (λ y,
      names ← map_result (loc (tab t) y) (letters_of_group t);
      ok ← row_ok class_to_teachers names;
      Ok (mkValidation (gi t) y ok))
    (index (tab t)).

Definition validate_rows (tables : list Table)
    (class_to_teachers : gmap string (gset string)) : result (list Validation) :=
  rows ← map_result (validate_table class_to_teachers) tables;
  Ok (concat rows).

(** ** The main flow of [app.py] *)

(** How a run on an uploaded file ends: [st.error(msg); st.stop()], an
    exception caught and shown by the [except] clause, or the tables and
    the report put on the page. *)
Inductive outcome :=
  | Stopped (msg : string)
  | Failed (e : exn)
  | Shown (tables : list Table) (validation : list Validation).

(** The message shown when no letter is complete. *)
Definition no_complete_letters_message : string :=
  "Nessuna lettera presente per tutti i 5 anni. Non posso costruire colonne coerenti 1..5.".

(** The stages after the registry. *)
Definition organize (complete_letters : list string)
    (class_to_teachers : gmap string (gset string))
    (year_letter_to_class : gmap (Z * string) string)
  : result (list Table * list Validation) :=
  conflicts ← letters_conflict_graph complete_letters class_to_teachers
                                    year_letter_to_class;
  groups ← greedy_group_letters complete_letters conflicts 4;
  let tables := build_tables groups year_letter_to_class in
  validation_df ← validate_rows tables class_to_teachers;
  Ok (tables, validation_df).

(** The [try] block of [app.py] from the point where [pd.read_csv], the
    first statement of [load_df], has returned the parsed frame; the
    errors of [read_csv] itself, which the same [except] clause shows, are
    outside the model. *)
Definition main (uploaded : DataFrame) : outcome :=
  match load_df uploaded with
  | Raise e => Failed e
  | Ok df =>
      match build_class_teacher_map df with
      | Raise e => Failed e
      | Ok (_, class_to_teachers, year_letter_to_class, complete_letters) =>
          match complete_letters with
          | [] => Stopped no_complete_letters_message
          | _ :: _ =>
              match organize complete_letters class_to_teachers
                             year_letter_to_class with
              | Raise e => Failed e
              | Ok (tables, validation_df) => Shown tables validation_df
              end
          end
      end
  end.

(** * Properties *)

(** ** The error monad *)

Lemma bind_Ok {A B} (f : A → result B) (m : result A) (b : B) :
  m ≫= f = Ok b ↔ ∃ a, m = Ok a ∧ f a = Ok b.
Proof.
  destruct m as [a|e]; simpl; split.
  - intros Hf. exists a. done.
  - intros (a' & [= <-] & Hf). done.
  - discriminate.
  - intros (a' & Hm & _). discriminate.
Qed.

Lemma getitem_Ok `{Countable K} {V} (d : gmap K V) (k : K) (v : V) :
  getitem d k = Ok v ↔ d !! k = Some v.
Proof. unfold getitem. destruct (d !! k); split; congruence. Qed.

Lemma getitem_lookup `{Countable K} {V} (d : gmap K V) (k : K) (v : V) :
  d !! k = Some v → getitem d k = Ok v.
Proof. apply getitem_Ok. Qed.

Lemma years_eq : years = [1; 2; 3; 4; 5].
Proof. reflexivity. Qed.

Lemma elem_of_years (y : Z) : y ∈ years ↔ 1 ≤ y ≤ 5.
Proof.
  unfold years, py_range. rewrite elem_of_seqZ. lia.
Qed.

(** ** The conflict relation of the data model *)

Section conflict_graph.
Variable class_to_teachers : gmap string (gset string).
Variable year_letter_to_class : gmap (Z * string) string.

(** The teacher set of the class of letter [L] in year [y]. *)
Definition teacher_set (y : Z) (L : string) : option (gset string) :=
  year_letter_to_class !! (y, L) ≫= λ c, class_to_teachers !! c.

(** Some year's teacher sets of the two letters intersect. *)
Definition conflict (L1 L2 : string) : Prop :=
  ∃ y t1 t2, 1 ≤ y ≤ 5 ∧ teacher_set y L1 = Some t1
             ∧ teacher_set y L2 = Some t2 ∧ t1 ∩ t2 ≠ ∅.

(** A letter with a class, and its teacher set, in each of the years. *)
Definition has_all_years (L : string) : Prop :=
  Forall (λ y, is_Some (teacher_set y L)) years.

(** [L2 in conflicts[L1]] *)
Definition in_conflicts (conflicts : gmap string (gset string))
    (L1 L2 : string) : Prop :=
  ∃ s, conflicts !! L1 = Some s ∧ L2 ∈ s.

(** The test of the years without [break]: every year is looked at and
    the outcomes are or-ed. *)
Definition any_shared_year (ys : list Z) (L1 L2 : string) : result bool :=
  bs ← map_result
        (λ y, share_teachers class_to_teachers year_letter_to_class y L1 L2)
        ys;
  Ok (existsb id bs).

Lemma conflict_sym L1 L2 : conflict L1 L2 → conflict L2 L1.
Proof.
  intros (y & t1 & t2 & Hy & H1 & H2 & Hne).
  exists y, t2, t1. repeat split; try done; try lia. set_solver.
Qed.

Lemma share_teachers_Ok y L1 L2 t1 t2 :
  teacher_set y L1 = Some t1 → teacher_set y L2 = Some t2 →
  share_teachers class_to_teachers year_letter_to_class y L1 L2
  = Ok (bool_decide (t1 ∩ t2 ≠ ∅)).
Proof.
  unfold teacher_set, share_teachers. intros H1 H2.
  destruct (year_letter_to_class !! (y, L1)) as [c1|] eqn:E1; [|done].
  destruct (year_letter_to_class !! (y, L2)) as [c2|] eqn:E2; [|done].
  simpl in H1, H2.
  rewrite (getitem_lookup _ _ _ E1), (getitem_lookup _ _ _ E2). simpl.
  rewrite (getitem_lookup _ _ _ H1), (getitem_lookup _ _ _ H2). done.
Qed.

Lemma first_shared_year_Ok ys L1 L2 :
  Forall (λ y, is_Some (teacher_set y L1)) ys →
  Forall (λ y, is_Some (teacher_set y L2)) ys →
  ∃ b, first_shared_year class_to_teachers year_letter_to_class ys L1 L2
       = Ok b
    ∧ any_shared_year ys L1 L2 = Ok b
    ∧ (b = true ↔ ∃ y t1 t2, y ∈ ys ∧ teacher_set y L1 = Some t1
                   ∧ teacher_set y L2 = Some t2 ∧ t1 ∩ t2 ≠ ∅).
Proof.
  unfold any_shared_year.
  induction ys as [|y ys IH]; intros HL1 HL2.
  - exists false. simpl. split; [done|]. split; [done|]. split; [done|].
    intros (y & ? & ? & Hy & _). by apply elem_of_nil in Hy.
  - apply Forall_cons in HL1 as [[t1 H1] HL1].
    apply Forall_cons in HL2 as [[t2 H2] HL2].
    destruct (IH HL1 HL2) as (b & Hb & Hany & Hiff).
    apply bind_Ok in Hany as (bs & Hbs & [= Hex]).
    cbn [first_shared_year map_result].
    rewrite (share_teachers_Ok _ _ _ _ _ H1 H2). cbn [mbind result_bind].
    rewrite Hbs. cbn [mbind result_bind existsb id].
    destruct (bool_decide (t1 ∩ t2 ≠ ∅)) eqn:Hd.
    + exists true. split; [done|]. split; [done|]. split; [|done].
      intros _. exists y, t1, t2. apply bool_decide_eq_true in Hd.
      split; [left|]; done.
    + exists b. split; [done|]. split; [by rewrite Hex|].
      rewrite Hiff. apply bool_decide_eq_false in Hd.
      split.
      * intros (y' & t1' & t2' & Hy' & ?). exists y', t1', t2'.
        split; [by right|done].
      * intros (y' & t1' & t2' & Hy' & H1' & H2' & Hne).
        apply elem_of_cons in Hy' as [->|Hy'].
        -- rewrite H1 in H1'. rewrite H2 in H2'. simplify_eq. done.
        -- exists y', t1', t2'. done.
Qed.

Lemma first_shared_year_years L1 L2 :
  has_all_years L1 → has_all_years L2 →
  ∃ b, first_shared_year class_to_teachers year_letter_to_class years L1 L2
       = Ok b
    ∧ any_shared_year years L1 L2 = Ok b
    ∧ (b = true ↔ conflict L1 L2).
Proof.
  intros H1 H2. destruct (first_shared_year_Ok years L1 L2 H1 H2)
    as (b & Hb & Hany & Hiff).
  exists b. split; [done|]. split; [done|]. rewrite Hiff. unfold conflict.
  split; intros (y & t1 & t2 & Hy & ?); exists y, t1, t2;
    (split; [by apply elem_of_years|done]).
Qed.

End conflict_graph.

(** ** The loops of [letters_conflict_graph] *)

(** The pair [(a, b)] is the pair [(x, z)] in one of its two orders. *)
Definition marks (x z a b : string) : Prop := (a = x ∧ b = z) ∨ (a = z ∧ b = x).

Lemma add_conflict_spec L1 L2 (c : gmap string (gset string)) :
  is_Some (c !! L1) → is_Some (c !! L2) →
  ∃ c', add_conflict L1 L2 c = Ok c' ∧ dom c' = dom c ∧
    ∀ a b, in_conflicts c' a b ↔ in_conflicts c a b ∨ marks L1 L2 a b.
Proof.
  intros [s1 H1] [s2 H2]. unfold add_conflict.
  rewrite (getitem_lookup _ _ _ H1). cbn [mbind result_bind].
  assert (∃ s2', <[L1:=s1 ∪ {[L2]}]> c !! L2 = Some s2'
                 ∧ ∀ b, b ∈ s2' ↔ b ∈ s2 ∨ (L1 = L2 ∧ b = L2)) as (s2' & H2' & Hs2').
  { destruct (decide (L1 = L2)) as [->|Hne].
    - rewrite lookup_insert_eq. eexists; split; [done|]. 
      rewrite H1 in H2. simplify_eq. set_solver.
    - rewrite lookup_insert_ne by done. exists s2. split; [done|]. naive_solver. }
  rewrite (getitem_lookup _ _ _ H2'). cbn [mbind result_bind].
  eexists. split; [done|]. split.
  - rewrite !dom_insert_L. apply elem_of_dom_2 in H1, H2. set_solver.
  - intros a b. unfold in_conflicts, marks.
    destruct (decide (a = L2)) as [->|Ha2].
    + rewrite lookup_insert_eq. split.
      * intros (s & [= <-] & Hb). apply elem_of_union in Hb as [Hb|Hb].
        -- apply Hs2' in Hb as [Hb|[-> ->]]; [left; eauto|]. right. by left.
        -- apply elem_of_singleton in Hb as ->. right. by right.
      * intros [(s & Hs & Hb)|[[-> ->]|[_ ->]]].
        -- rewrite H2 in Hs. simplify_eq. eexists; split; [done|].
           apply elem_of_union_l, Hs2'. by left.
        -- eexists; split; [done|]. apply elem_of_union_l, Hs2'. by right.
        -- eexists; split; [done|]. set_solver.
    + rewrite lookup_insert_ne by done.
      destruct (decide (a = L1)) as [->|Ha1].
      * rewrite lookup_insert_eq. split.
        -- intros (s & [= <-] & Hb). apply elem_of_union in Hb as [Hb|Hb].
           ++ left. eauto.
           ++ apply elem_of_singleton in Hb as ->. right. by left.
        -- intros [(s & Hs & Hb)|[[_ ->]|[? _]]]; [| |done].
           ++ rewrite H1 in Hs. simplify_eq. eexists; split; [done|]. set_solver.
           ++ eexists; split; [done|]. set_solver.
      * rewrite lookup_insert_ne by done. naive_solver.
Qed.

Section conflict_loops.
Variable class_to_teachers : gmap string (gset string).
Variable year_letter_to_class : gmap (Z * string) string.

Local Abbreviation conflict :=
  (conflict class_to_teachers year_letter_to_class).
Local Abbreviation has_all_years :=
  (has_all_years class_to_teachers year_letter_to_class).

Lemma check_pair_spec L1 L2 (c : gmap string (gset string)) :
  has_all_years L1 → has_all_years L2 →
  is_Some (c !! L1) → is_Some (c !! L2) →
  ∃ c', check_pair class_to_teachers year_letter_to_class L1 L2 c = Ok c'
    ∧ dom c' = dom c
    ∧ ∀ a b, in_conflicts c' a b ↔
             in_conflicts c a b ∨ (conflict L1 L2 ∧ marks L1 L2 a b).
Proof.
  intros Hy1 Hy2 Hk1 Hk2. unfold check_pair.
  destruct (first_shared_year_years _ _ L1 L2 Hy1 Hy2)
    as (b & -> & _ & Hb).
  cbn [mbind result_bind]. destruct b.
  - destruct (add_conflict_spec L1 L2 c Hk1 Hk2) as (c' & -> & Hdom & Hc').
    exists c'. split; [done|]. split; [done|]. intros a b.
    rewrite Hc'. intuition.
  - exists c. split; [done|]. split; [done|]. intros a b.
    split; [by left|]. intros [?|[Hc _]]; [done|].
    apply Hb in Hc. discriminate.
Qed.

Lemma inner_loop_spec L1 rest (c : gmap string (gset string)) :
  has_all_years L1 → Forall has_all_years rest →
  is_Some (c !! L1) → Forall (λ L, is_Some (c !! L)) rest →
  ∃ c', for_each (check_pair class_to_teachers year_letter_to_class L1)
                 rest c = Ok c'
    ∧ dom c' = dom c
    ∧ ∀ a b, in_conflicts c' a b ↔
             in_conflicts c a b
             ∨ ∃ L2, L2 ∈ rest ∧ conflict L1 L2 ∧ marks L1 L2 a b.
Proof.
  intros Hy1. revert c.
  induction rest as [|L2 rest IH]; intros c Hys Hk1 Hks.
  - exists c. split; [done|]. split; [done|]. intros a b.
    split; [by left|]. intros [?|(? & Hin & _)]; [done|].
    by apply elem_of_nil in Hin.
  - apply Forall_cons in Hys as [Hy2 Hys].
    apply Forall_cons in Hks as [Hk2 Hks].
    destruct (check_pair_spec L1 L2 c Hy1 Hy2 Hk1 Hk2)
      as (c1 & Hc1 & Hdom1 & Hin1).
    assert (∀ L, is_Some (c !! L) → is_Some (c1 !! L)) as Hkeep.
    { intros L. rewrite <-!elem_of_dom, Hdom1. done. }
    destruct (IH c1 Hys (Hkeep _ Hk1)) as (c' & Hc' & Hdom' & Hin').
    { eapply Forall_impl; [exact Hks|]. exact Hkeep. }
    exists c'. cbn [for_each]. rewrite Hc1. cbn [mbind result_bind].
    split; [done|]. split; [congruence|]. intros a b.
    rewrite Hin', Hin1. split.
    + intros [[?|[? ?]]|(L & ? & ? & ?)]; [by left|right..].
      * exists L2. split; [left|]; done.
      * exists L. split; [by right|done].
    + intros [?|(L & HL & ? & ?)]; [by left; left|].
      apply elem_of_cons in HL as [->|HL]; [left; right; done|].
      right. exists L. done.
Qed.

Lemma conflict_loop_spec letters (c : gmap string (gset string)) :
  Forall has_all_years letters →
  Forall (λ L, is_Some (c !! L)) letters →
  ∃ c', conflict_loop class_to_teachers year_letter_to_class letters c
        = Ok c'
    ∧ dom c' = dom c
    ∧ ∀ a b, in_conflicts c' a b ↔
             in_conflicts c a b
             ∨ ∃ x z, (x, z) ∈ combinations2 letters
                      ∧ conflict x z ∧ marks x z a b.
Proof.
  revert c. induction letters as [|L1 rest IH]; intros c Hys Hks.
  - exists c. split; [done|]. split; [done|]. intros a b.
    split; [by left|]. intros [?|(? & ? & Hin & _)]; [done|].
    by apply elem_of_nil in Hin.
  - apply Forall_cons in Hys as [Hy1 Hys].
    apply Forall_cons in Hks as [Hk1 Hks].
    destruct (inner_loop_spec L1 rest c Hy1 Hys Hk1 Hks)
      as (c1 & Hc1 & Hdom1 & Hin1).
    destruct (IH c1 Hys) as (c' & Hc' & Hdom' & Hin').
    { eapply Forall_impl; [exact Hks|]. intros L.
      rewrite <-!elem_of_dom, Hdom1. done. }
    exists c'. cbn [conflict_loop]. rewrite Hc1. cbn [mbind result_bind].
    split; [done|]. split; [congruence|]. intros a b.
    rewrite Hin', Hin1. cbn [combinations2].
    setoid_rewrite elem_of_app. setoid_rewrite list_elem_of_fmap.
    split.
    + intros [[?|(L2 & ? & ? & ?)]|(x & z & ? & ? & ?)]; [by left|right..].
      * exists L1, L2. split; [left; by exists L2|done].
      * exists x, z. split; [by right|done].
    + intros [?|(x & z & [(L2 & [= -> ->] & ?)|?] & ? & ?)].
      * by left; left.
      * left; right. by exists L2.
      * right. by exists x, z.
Qed.

Lemma empty_conflicts_lookup letters L :
  empty_conflicts letters !! L = if decide (L ∈ letters) then Some ∅ else None.
Proof.
  unfold empty_conflicts.
  enough (∀ (m : gmap string (gset string)),
            foldl (λ m L, <[L := ∅]> m) m letters !! L
            = if decide (L ∈ letters) then Some ∅ else m !! L) as ->.
  { by rewrite lookup_empty. }
  induction letters as [|L' letters IH]; intros m; cbn [foldl].
  - rewrite decide_False; [done|]. apply not_elem_of_nil.
  - rewrite IH. destruct (decide (L ∈ letters)) as [Hin|Hnin].
    + rewrite decide_True; [done|]. by right.
    + destruct (decide (L' = L)) as [->|Hne].
      * rewrite lookup_insert_eq, decide_True; [done|]. by left.
      * rewrite lookup_insert_ne by done. rewrite decide_False; [done|].
        intros [->|?]%elem_of_cons; done.
Qed.

(** What [letters_conflict_graph] returns for letters that have their five
    classes: the letters are its keys and the marked pairs are the
    conflicting pairs of positions of the list. *)
Lemma letters_conflict_graph_spec letters :
  Forall has_all_years letters →
  ∃ conflicts,
    letters_conflict_graph letters class_to_teachers year_letter_to_class
    = Ok conflicts
    ∧ (∀ L, is_Some (conflicts !! L) ↔ L ∈ letters)
    ∧ ∀ a b, in_conflicts conflicts a b ↔
             ∃ x z, (x, z) ∈ combinations2 letters
                    ∧ conflict x z ∧ marks x z a b.
Proof.
  intros Hys. unfold letters_conflict_graph.
  destruct (conflict_loop_spec letters (empty_conflicts letters) Hys)
    as (c' & Hc' & Hdom & Hin).
  { apply Forall_forall. intros L HL. rewrite empty_conflicts_lookup.
    rewrite decide_True by done. by eexists. }
  exists c'. split; [done|]. split.
  - intros L. rewrite <-elem_of_dom, Hdom, elem_of_dom.
    rewrite empty_conflicts_lookup. case_decide.
    + split; [done|]. by eexists.
    + split; [by intros [? ?]|done].
  - intros a b. rewrite Hin. split; [|by right].
    intros [(s & Hs & Hb)|?]; [|done].
    rewrite empty_conflicts_lookup in Hs. case_decide; simplify_eq.
    by apply not_elem_of_empty in Hb.
Qed.

End conflict_loops.

(** ** Pairs of positions *)

Lemma elem_of_combinations2 {A} (l : list A) (a b : A) :
  (a, b) ∈ combinations2 l → a ∈ l ∧ b ∈ l.
Proof.
  induction l as [|x l IH]; cbn [combinations2].
  - intros H. by apply elem_of_nil in H.
  - rewrite elem_of_app, list_elem_of_fmap.
    intros [(y & [= -> ->] & Hy)|H].
    + split; [left|right]; done.
    + destruct (IH H). split; by right.
Qed.

Lemma combinations2_distinct {A} (l : list A) (a b : A) :
  a ∈ l → b ∈ l → a ≠ b →
  (a, b) ∈ combinations2 l ∨ (b, a) ∈ combinations2 l.
Proof.
  induction l as [|x l IH]; intros Ha Hb Hne.
  - by apply elem_of_nil in Ha.
  - cbn [combinations2]. rewrite !elem_of_app, !list_elem_of_fmap.
    apply elem_of_cons in Ha as [->|Ha]; apply elem_of_cons in Hb as [->|Hb].
    + done.
    + left; left. by exists b.
    + right; left. by exists a.
    + destruct (IH Ha Hb Hne); [left|right]; by right.
Qed.

Lemma combinations2_NoDup {A} (l : list A) (a : A) :
  NoDup l → (a, a) ∉ combinations2 l.
Proof.
  induction 1 as [|x l Hx Hnd IH]; cbn [combinations2].
  - apply not_elem_of_nil.
  - rewrite elem_of_app, list_elem_of_fmap.
    intros [(y & [= -> ->] & Hy)|H]; done.
Qed.

(** ** A registry of two letters used in the examples: the letters A and B
    have their five classes; Rossi teaches all of A and the class 3B. *)

Module Scenario.

Definition year_letter_to_class : gmap (Z * string) string :=
  list_to_map
    [((1, "A"), "1A"); ((2, "A"), "2A"); ((3, "A"), "3A");
     ((4, "A"), "4A"); ((5, "A"), "5A");
     ((1, "B"), "1B"); ((2, "B"), "2B"); ((3, "B"), "3B");
     ((4, "B"), "4B"); ((5, "B"), "5B")].

Definition class_to_teachers : gmap string (gset string) :=
  list_to_map
    [("1A", {["Rossi"]}); ("2A", {["Rossi"]}); ("3A", {["Rossi"]});
     ("4A", {["Rossi"]}); ("5A", {["Rossi"]});
     ("1B", {["Bianchi"]}); ("2B", {["Bianchi"]});
     ("3B", {["Bianchi"; "Rossi"]});
     ("4B", {["Bianchi"]}); ("5B", ∅)].

Definition letters : list string := ["A"; "B"].

End Scenario.

#[global] Instance has_all_years_dec ctt ylc L :
  Decision (has_all_years ctt ylc L).
Proof. unfold has_all_years. apply _. Defined.

Lemma scenario_has_all_years :
  Forall (has_all_years Scenario.class_to_teachers
                        Scenario.year_letter_to_class) Scenario.letters.
Proof. apply (bool_decide_unpack _). vm_compute. exact I. Defined.

Lemma scenario_NoDup : NoDup Scenario.letters.
Proof. apply (bool_decide_unpack _). vm_compute. exact I. Defined.

(** ** The conflict graph *)

(** C1. For letters with their five classes, [letters_conflict_graph]
    returns a mapping in which, for every pair of distinct letters of the
    list, [L2 in conflicts[L1]] holds iff some year 1..5 has intersecting
    teacher sets for the classes of [L1] and [L2]; and the test of the
    years that stops at the first intersecting year gives what the test
    of all five years gives. *)
Theorem conflict_correct (letters : list string)
    (class_to_teachers : gmap string (gset string))
    (year_letter_to_class : gmap (Z * string) string) :
  Forall (has_all_years class_to_teachers year_letter_to_class) letters →
  ∃ conflicts,
    letters_conflict_graph letters class_to_teachers year_letter_to_class
    = Ok conflicts
    ∧ ∀ L1 L2, L1 ∈ letters → L2 ∈ letters → L1 ≠ L2 →
        (in_conflicts conflicts L1 L2
         ↔ conflict class_to_teachers year_letter_to_class L1 L2)
        ∧ first_shared_year class_to_teachers year_letter_to_class
            years L1 L2
          = any_shared_year class_to_teachers year_letter_to_class
              years L1 L2.
Proof.
  intros Hys.
  destruct (letters_conflict_graph_spec _ _ letters Hys)
    as (c & Hc & Hkeys & Hin).
  exists c. split; [done|]. intros L1 L2 H1 H2 Hne. split.
  - rewrite Hin. split.
    + intros (x & z & _ & Hxz & [[-> ->]|[-> ->]]); [done|].
      by apply conflict_sym.
    + intros Hconf.
      destruct (combinations2_distinct letters L1 L2 H1 H2 Hne) as [Hp|Hp].
      * exists L1, L2. split; [done|]. split; [done|]. by left.
      * exists L2, L1. split; [done|]. split; [by apply conflict_sym|].
        by right.
  - rewrite Forall_forall in Hys.
    destruct (first_shared_year_years _ _ L1 L2 (Hys _ H1) (Hys _ H2))
      as (b & -> & -> & _).
    done.
Qed.

Lemma conflict_correct_witness :
  ∃ conflicts,
    letters_conflict_graph Scenario.letters Scenario.class_to_teachers
                           Scenario.year_letter_to_class = Ok conflicts
    ∧ ∀ L1 L2, L1 ∈ Scenario.letters → L2 ∈ Scenario.letters → L1 ≠ L2 →
        (in_conflicts conflicts L1 L2
         ↔ conflict Scenario.class_to_teachers
                    Scenario.year_letter_to_class L1 L2)
        ∧ first_shared_year Scenario.class_to_teachers
            Scenario.year_letter_to_class years L1 L2
          = any_shared_year Scenario.class_to_teachers
              Scenario.year_letter_to_class years L1 L2.
Proof.
  apply (conflict_correct Scenario.letters Scenario.class_to_teachers
                          Scenario.year_letter_to_class).
  exact scenario_has_all_years.
Defined.

(** C5. The mapping returned by [letters_conflict_graph] is symmetric, its
    keys are the input letters, and a letter that conflicts with no other
    letter is mapped to the empty set. *)
Theorem conflicts_symmetric_total (letters : list string)
    (class_to_teachers : gmap string (gset string))
    (year_letter_to_class : gmap (Z * string) string) :
  Forall (has_all_years class_to_teachers year_letter_to_class) letters →
  ∃ conflicts,
    letters_conflict_graph letters class_to_teachers year_letter_to_class
    = Ok conflicts
    ∧ (∀ L1 L2, in_conflicts conflicts L1 L2 ↔ in_conflicts conflicts L2 L1)
    ∧ (∀ L, L ∈ letters ↔ is_Some (conflicts !! L))
    ∧ (NoDup letters →
       ∀ L, L ∈ letters →
         (∀ L2, L2 ∈ letters → L2 ≠ L →
            ¬ conflict class_to_teachers year_letter_to_class L L2) →
         conflicts !! L = Some ∅).
Proof.
  intros Hys.
  destruct (letters_conflict_graph_spec _ _ letters Hys)
    as (c & Hc & Hkeys & Hin).
  exists c. split; [done|]. split; [|split].
  - intros L1 L2. rewrite !Hin.
    split; intros (x & z & Hp & Hxz & Hm); exists x, z;
      (split; [done|]); (split; [done|]); unfold marks in *; tauto.
  - intros L. by rewrite Hkeys.
  - intros Hnd L HL Hnone. apply Hkeys in HL as [s Hs].
    rewrite Hs. f_equal. apply set_eq. intros b. split; [|set_solver].
    intros Hb. exfalso.
    assert (in_conflicts c L b) as Hlb by (by exists s).
    apply Hin in Hlb as (x & z & Hp & Hxz & Hm).
    assert (x ≠ z) as Hne.
    { intros ->. by apply (combinations2_NoDup letters z). }
    apply elem_of_combinations2 in Hp as [Hx Hz].
    destruct Hm as [[-> ->]|[-> ->]].
    + by apply (Hnone z).
    + apply (Hnone x); [done..|]. by apply conflict_sym.
Qed.

Lemma conflicts_symmetric_total_witness :
  ∃ conflicts,
    letters_conflict_graph Scenario.letters Scenario.class_to_teachers
                           Scenario.year_letter_to_class = Ok conflicts
    ∧ (∀ L1 L2, in_conflicts conflicts L1 L2 ↔ in_conflicts conflicts L2 L1)
    ∧ (∀ L, L ∈ Scenario.letters ↔ is_Some (conflicts !! L))
    ∧ (NoDup Scenario.letters →
       ∀ L, L ∈ Scenario.letters →
         (∀ L2, L2 ∈ Scenario.letters → L2 ≠ L →
            ¬ conflict Scenario.class_to_teachers
                       Scenario.year_letter_to_class L L2) →
         conflicts !! L = Some ∅).
Proof.
  apply (conflicts_symmetric_total Scenario.letters
           Scenario.class_to_teachers Scenario.year_letter_to_class).
  exact scenario_has_all_years.
Defined.

(** C10. For a list of distinct letters with their five classes, no
    letter is a member of its own conflict set. *)
Theorem conflicts_irreflexive (letters : list string)
    (class_to_teachers : gmap string (gset string))
    (year_letter_to_class : gmap (Z * string) string) :
  NoDup letters →
  Forall (has_all_years class_to_teachers year_letter_to_class) letters →
  ∃ conflicts,
    letters_conflict_graph letters class_to_teachers year_letter_to_class
    = Ok conflicts
    ∧ ∀ L, ¬ in_conflicts conflicts L L.
Proof.
  intros Hnd Hys.
  destruct (letters_conflict_graph_spec _ _ letters Hys)
    as (c & Hc & Hkeys & Hin).
  exists c. split; [done|]. intros L HL.
  apply Hin in HL as (x & z & Hp & _ & [[Hx Hz]|[Hx Hz]]); subst x z;
    by apply (combinations2_NoDup letters L).
Qed.

Lemma conflicts_irreflexive_witness :
  ∃ conflicts,
    letters_conflict_graph Scenario.letters Scenario.class_to_teachers
                           Scenario.year_letter_to_class = Ok conflicts
    ∧ ∀ L, ¬ in_conflicts conflicts L L.
Proof.
  apply (conflicts_irreflexive Scenario.letters Scenario.class_to_teachers
                               Scenario.year_letter_to_class).
  - exact scenario_NoDup.
  - exact scenario_has_all_years.
Defined.

(** ** The row validator *)

Lemma map_result_Ok {A B} (f : A → result B) (P : B → A → Prop) (l : list A) :
  (∀ x, x ∈ l → ∃ y, f x = Ok y ∧ P y x) →
  ∃ ys, map_result f l = Ok ys ∧ Forall2 P ys l.
Proof.
  induction l as [|x l IH]; intros Hf.
  - exists []. split; [done|]. constructor.
  - destruct (Hf x) as (y & Hy & HP); [by left|].
    destruct IH as (ys & Hys & HF); [intros x' Hx'; apply Hf; by right|].
    exists (y :: ys). cbn [map_result]. rewrite Hy. cbn [mbind result_bind].
    rewrite Hys. split; [done|]. by constructor.
Qed.

Lemma Forall2_concat_rows {A B} (P : A → B → Prop) ls ks :
  Forall2 (Forall2 P) ls ks → Forall2 P (concat ls) (concat ks).
Proof.
  induction 1 as [|l k ls ks Hlk _ IH]; cbn [concat].
  - constructor.
  - by apply Forall2_app.
Qed.

Lemma combinations2_lookup {A} (l : list A) (a b : A) :
  (a, b) ∈ combinations2 l ↔
  ∃ i j, (i < j)%nat ∧ l !! i = Some a ∧ l !! j = Some b.
Proof.
  induction l as [|x l IH]; cbn [combinations2].
  - split; [intros H; by apply elem_of_nil in H|].
    intros (i & j & _ & Hi & _). by rewrite lookup_nil in Hi.
  - rewrite elem_of_app, list_elem_of_fmap, IH. split.
    + intros [(y & [= -> ->] & Hy)|(i & j & Hij & Hi & Hj)].
      * apply list_elem_of_lookup in Hy as [j Hj].
        exists 0%nat, (S j). split; [lia|done].
      * exists (S i), (S j). split; [lia|done].
    + intros (i & j & Hij & Hi & Hj).
      destruct j as [|j]; [lia|]. destruct i as [|i].
      * left. exists b. simpl in Hi, Hj. split; [congruence|].
        apply list_elem_of_lookup. by exists j.
      * right. exists i, j. split; [lia|done].
Qed.

Lemma combinations2_filter {A} (P : A → Prop) `{∀ x, Decision (P x)}
    (l : list A) (a b : A) :
  (a, b) ∈ combinations2 (filter P l) ↔ (a, b) ∈ combinations2 l ∧ P a ∧ P b.
Proof.
  induction l as [|x l IH].
  - cbn. split; [intros H'; by apply elem_of_nil in H'|].
    intros [H' _]. by apply elem_of_nil in H'.
  - rewrite filter_cons. cbn [combinations2].
    rewrite elem_of_app, list_elem_of_fmap.
    destruct (decide (P x)) as [Hx|Hx].
    + cbn [combinations2]. rewrite elem_of_app, list_elem_of_fmap, IH.
      split.
      * intros [(y & [= -> ->] & Hy)|(? & ? & ?)].
        -- apply list_elem_of_filter in Hy as [? ?].
           split; [left; by eexists|done].
        -- split; [by right|done].
      * intros [[(y & [= -> ->] & Hy)|?] [? ?]].
        -- left. eexists. split; [done|]. by apply list_elem_of_filter.
        -- by right.
    + rewrite IH. split.
      * intros (? & ? & ?). split; [by right|done].
      * intros [[(y & [= -> ->] & Hy)|?] [? ?]]; done.
Qed.

Section row_validator.
Variable class_to_teachers : gmap string (gset string).

(** No two of the non-empty class labels of the row, taken at two
    positions of the row, have intersecting teacher sets. *)
Definition row_valid (class_names : list string) : Prop :=
  ∀ i j c1 c2 t1 t2,
    (i < j)%nat →
    class_names !! i = Some c1 → class_names !! j = Some c2 →
    c1 ≠ "" → c2 ≠ "" →
    class_to_teachers !! c1 = Some t1 → class_to_teachers !! c2 = Some t2 →
    t1 ∩ t2 = ∅.

(** Every non-empty label of the row is a class of the mapping. *)
Definition known_classes (class_names : list string) : Prop :=
  Forall (λ c, c ≠ "" → is_Some (class_to_teachers !! c)) class_names.

Lemma no_shared_teacher_spec (pairs : list (string * string)) :
  (∀ c1 c2, (c1, c2) ∈ pairs →
     is_Some (class_to_teachers !! c1) ∧ is_Some (class_to_teachers !! c2)) →
  ∃ b, no_shared_teacher class_to_teachers pairs = Ok b
    ∧ (b = true ↔
       ∀ c1 c2 t1 t2, (c1, c2) ∈ pairs →
         class_to_teachers !! c1 = Some t1 →
         class_to_teachers !! c2 = Some t2 → t1 ∩ t2 = ∅).
Proof.
  induction pairs as [|[c1 c2] pairs IH]; intros Hk.
  - exists true. split; [done|]. split; [|done].
    intros _ ? ? ? ? H. by apply elem_of_nil in H.
  - destruct (Hk c1 c2) as [[t1 H1] [t2 H2]]; [by left|].
    destruct IH as (b & Hb & Hiff).
    { intros ? ? ?. apply Hk. by right. }
    cbn [no_shared_teacher].
    rewrite (getitem_lookup _ _ _ H1), (getitem_lookup _ _ _ H2).
    cbn [mbind result_bind].
    destruct (bool_decide (t1 ∩ t2 ≠ ∅)) eqn:Hd.
    + exists false. split; [done|]. split; [done|]. intros Hall.
      apply bool_decide_eq_true in Hd. destruct Hd.
      apply (Hall c1 c2); [by left|done..].
    + exists b. split; [done|]. rewrite Hiff.
      apply bool_decide_eq_false in Hd.
      split; intros Hall c1' c2' t1' t2' Hin H1' H2'.
      * apply elem_of_cons in Hin as [Heq|Hin].
        -- injection Heq as ? ?. subst c1' c2'.
           rewrite H1 in H1'. rewrite H2 in H2'.
           injection H1' as <-. injection H2' as <-.
           destruct (decide (t1 ∩ t2 = ∅)); done.
        -- by apply (Hall c1' c2').
      * apply (Hall c1' c2'); [by right|done..].
Qed.

Lemma row_ok_spec (class_names : list string) :
  known_classes class_names →
  ∃ b, row_ok class_to_teachers class_names = Ok b
    ∧ (b = true ↔ row_valid class_names).
Proof.
  intros Hk. unfold row_ok.
  destruct (no_shared_teacher_spec
              (combinations2 (filter (λ c, c ≠ "") class_names)))
    as (b & Hb & Hiff).
  { intros c1 c2 Hin. apply combinations2_filter in Hin as (Hin & H1 & H2).
    apply elem_of_combinations2 in Hin as [Hc1 Hc2].
    unfold known_classes in Hk. rewrite Forall_forall in Hk.
    split; by apply Hk. }
  exists b. split; [done|]. rewrite Hiff. unfold row_valid. split.
  - intros Hall i j c1 c2 t1 t2 Hij Hi Hj Hn1 Hn2 H1 H2.
    apply (Hall c1 c2); [|done..].
    apply combinations2_filter. split; [|done].
    apply combinations2_lookup. by exists i, j.
  - intros Hall c1 c2 t1 t2 Hin H1 H2.
    apply combinations2_filter in Hin as (Hin & Hn1 & Hn2).
    apply combinations2_lookup in Hin as (i & j & Hij & Hi & Hj).
    by apply (Hall i j c1 c2).
Qed.

Lemma row_valid_few (class_names : list string) :
  (length (filter (λ c, c ≠ "") class_names) ≤ 1)%nat →
  row_valid class_names.
Proof.
  intros Hlen i j c1 c2 t1 t2 Hij Hi Hj Hn1 Hn2 _ _. exfalso.
  assert ((c1, c2) ∈ combinations2 (filter (λ c, c ≠ "") class_names))
    as Hin.
  { apply combinations2_filter. split; [|done].
    apply combinations2_lookup. by exists i, j. }
  destruct (filter (λ c, c ≠ "") class_names) as [|x [|x' l]].
  - by apply elem_of_nil in Hin.
  - cbn in Hin. by apply elem_of_nil in Hin.
  - cbn in Hlen. lia.
Qed.

End row_validator.

(** The rows the validator visits: each table with each label of its index. *)
Definition rows_of (tables : list Table) : list (Table * Z) :=
  concat ((λ t, (λ y, (t, y)) <$> index (tab t)) <$> tables).

(** The rows of the tables as they are stored: each table with each of
    its rows, the label of the year and the cells by column. *)
Definition stored_rows (tables : list Table)
  : list (Table * (Z * gmap string string)) :=
  concat ((λ t, (λ r, (t, r)) <$> tab t) <$> tables).

(** The cells of a stored row under the letters of the group, in order. *)
Definition row_cells (row : gmap string string) (g names : list string)
  : Prop :=
  Forall2 (λ L c, row !! L = Some c) g names.

(** What the report says of a stored row. *)
Definition verdict (class_to_teachers : gmap string (gset string))
    (r : Validation) (tr : Table * (Z * gmap string string)) : Prop :=
  tabella r = gi tr.1 ∧ anno r = tr.2.1
  ∧ ∃ names,
      row_cells tr.2.2 (letters_of_group tr.1) names
      ∧ (valida r = true ↔ row_valid class_to_teachers names)
      ∧ ((length (filter (λ c, c ≠ "") names) ≤ 1)%nat → valida r = true).

Lemma loc_stored (t : Grid) (y : Z) (row : gmap string string) (L : string) :
  NoDup (index t) → (y, row) ∈ t → loc t y L = getitem row L.
Proof.
  intros Hnd Hin. unfold loc.
  destruct (list_find (λ r, r.1 = y) t) as [[i [y' row']]|] eqn:Hf.
  - apply list_find_Some in Hf as (Hi & Hy & _). cbn in Hy. subst y'.
    apply list_elem_of_lookup in Hin as [j Hj].
    assert (i = j) as ->.
    { apply (NoDup_lookup (index t) i j y Hnd); unfold index;
        rewrite list_lookup_fmap; [by rewrite Hi|by rewrite Hj]. }
    rewrite Hi in Hj. by injection Hj as ->.
  - apply list_find_None in Hf. rewrite Forall_forall in Hf.
    by destruct (Hf _ Hin).
Qed.

Lemma row_cells_loc (t : Grid) (y : Z) (row : gmap string string)
    (g names : list string) :
  NoDup (index t) → (y, row) ∈ t → row_cells row g names →
  map_result (loc t y) g = Ok names.
Proof.
  intros Hnd Hin. induction 1 as [|L c g names Hc _ IH]; [done|].
  cbn [map_result]. rewrite (loc_stored t y row L Hnd Hin).
  rewrite (getitem_lookup _ _ _ Hc). cbn [mbind result_bind].
  by rewrite IH.
Qed.

Lemma map_result_fmap_l {A B C} (f : B → result C) (h : A → B) (l : list A) :
  map_result f (h <$> l) = map_result (λ x, f (h x)) l.
Proof.
  induction l as [|x l IH]; [done|].
  cbn [fmap list_fmap map_result]. by rewrite IH.
Qed.

(** C2. For every list of tables with distinct index labels whose rows
    have a cell for each letter of the group and hold classes of the
    mapping, [validate_rows] returns one record per table and stored row,
    in order, with the number of the table and the year of the row, and
    the record marks the row valid iff no two of the non-empty class
    labels stored in the row have intersecting teacher sets; a row with
    at most one non-empty label is valid.  The tables are arbitrary: the
    verdict is determined by the labels of the row and the mapping. *)
Theorem validate_rows_correct (tables : list Table)
    (class_to_teachers : gmap string (gset string)) :
  (∀ t, t ∈ tables → NoDup (fst <$> tab t)) →
  (∀ t y row, t ∈ tables → (y, row) ∈ tab t →
     ∃ names, row_cells row (letters_of_group t) names
              ∧ known_classes class_to_teachers names) →
  ∃ records,
    validate_rows tables class_to_teachers = Ok records
    ∧ Forall2 (verdict class_to_teachers) records (stored_rows tables).
Proof.
  intros Hnd Hwf. unfold validate_rows.
  destruct (map_result_Ok (validate_table class_to_teachers)
              (λ recs t, Forall2 (verdict class_to_teachers) recs
                           ((λ r, (t, r)) <$> tab t)) tables)
    as (rows & Hrows & HF).
  { intros t Ht. unfold validate_table, index.
    rewrite map_result_fmap_l.
    destruct (map_result_Ok
      (λ r : Z * gmap string string,
         names ← map_result (loc (tab t) r.1) (letters_of_group t);
         ok ← row_ok class_to_teachers names;
         Ok (mkValidation (gi t) r.1 ok))
      (λ rec r, verdict class_to_teachers rec (t, r)) (tab t))
      as (recs & Hrecs & HFt).
    { intros [y row] Hin.
      destruct (Hwf t y row Ht Hin) as (names & Hnames & Hk).
      destruct (row_ok_spec class_to_teachers names Hk) as (b & Hb & Hiff).
      exists (mkValidation (gi t) y b). cbn [fst].
      rewrite (row_cells_loc (tab t) y row _ names (Hnd t Ht) Hin Hnames).
      cbn [mbind result_bind]. rewrite Hb. split; [done|].
      split; [done|]. split; [done|]. exists names. cbn.
      split; [done|]. split; [done|]. intros Hlen.
      by apply Hiff, row_valid_few. }
    exists recs. split; [done|]. by apply Forall2_fmap_r. }
  exists (concat rows). rewrite Hrows. split; [done|].
  apply Forall2_concat_rows. by apply Forall2_fmap_r.
Qed.

(** A table built by hand: the classes 3A and 3B, which share Rossi, in one
    row. *)
Definition hand_built : list Table :=
  [mkTable 7 ["A"; "B"] [(3, {["A" := "3A"; "B" := "3B"]})]].

Lemma validate_rows_correct_witness :
  ∃ records,
    validate_rows hand_built Scenario.class_to_teachers = Ok records
    ∧ Forall2 (verdict Scenario.class_to_teachers) records
              (stored_rows hand_built).
Proof.
  apply (validate_rows_correct hand_built Scenario.class_to_teachers).
  - intros t Ht. apply list_elem_of_singleton in Ht. subst t.
    apply NoDup_singleton.
  - intros t y row Ht Hin. apply list_elem_of_singleton in Ht. subst t.
    apply list_elem_of_singleton in Hin. injection Hin as -> ->.
    exists ["3A"; "3B"]. split.
    + unfold row_cells. cbn [letters_of_group].
      repeat (constructor; [vm_compute; reflexivity|]). constructor.
    + apply (bool_decide_unpack _). vm_compute. exact I.
Defined.

Example hand_built_flagged :
  validate_rows hand_built Scenario.class_to_teachers
  = Ok [mkValidation 7 3 false].
Proof. vm_compute. reflexivity. Qed.

(** ** The stable descending sort *)

Section sort_desc.
Context {A : Type}.
Implicit Types (l : list (Z * A)) (kx : Z * A).

Lemma insert_desc_Permutation kx l : insert_desc kx l ≡ₚ kx :: l.
Proof.
  induction l as [|ky l IH]; cbn [insert_desc]; [done|].
  case_decide; [done|]. rewrite IH. apply Permutation_swap.
Qed.

Lemma sort_desc_Permutation l : sort_desc l ≡ₚ l.
Proof.
  induction l as [|kx l IH]; cbn; [done|].
  fold (sort_desc l). by rewrite insert_desc_Permutation, IH.
Qed.

(** Descending keys, and the order [R] among elements of equal key. *)
Definition desc_then (R : relation (Z * A)) : relation (Z * A) :=
  λ a b, b.1 < a.1 ∨ (a.1 = b.1 ∧ R a b).

Lemma insert_desc_sorted (R : relation (Z * A)) kx l :
  StronglySorted (desc_then R) l → Forall (R kx) l →
  StronglySorted (desc_then R) (insert_desc kx l).
Proof.
  induction l as [|ky l IH]; intros Hs HR; cbn [insert_desc].
  - repeat constructor.
  - apply StronglySorted_cons in Hs as [Hky Hs].
    apply Forall_cons in HR as [HRy HR].
    case_decide as Hle.
    + constructor; [by constructor|]. constructor.
      * unfold desc_then. destruct (decide (ky.1 = kx.1)); [right|left];
          [done|lia].
      * rewrite Forall_forall in Hky, HR. apply Forall_forall.
        intros kz Hz. specialize (Hky kz Hz). specialize (HR kz Hz).
        unfold desc_then in *.
        destruct (decide (kz.1 = kx.1)); [right; done|left].
        destruct Hky as [?|[? _]]; lia.
    + constructor; [by apply IH|].
      rewrite insert_desc_Permutation. constructor; [|done].
      left. lia.
Qed.

Lemma sort_desc_sorted (R : relation (Z * A)) l :
  StronglySorted R l → StronglySorted (desc_then R) (sort_desc l).
Proof.
  induction 1 as [|kx l Hs IH HR]; cbn; [constructor|].
  fold (sort_desc l). apply insert_desc_sorted; [done|].
  by rewrite sort_desc_Permutation.
Qed.

(** Stability: the elements of any one key are in the order they had. *)
Lemma insert_desc_filter (k : Z) kx l :
  filter (λ p, p.1 = k) (insert_desc kx l) = filter (λ p, p.1 = k) (kx :: l).
Proof.
  induction l as [|ky l IH]; cbn [insert_desc]; [done|].
  case_decide as Hle; [done|].
  rewrite filter_cons, IH, !filter_cons.
  destruct (decide (ky.1 = k)), (decide (kx.1 = k)); try done. lia.
Qed.

Lemma sort_desc_stable (k : Z) l :
  filter (λ p, p.1 = k) (sort_desc l) = filter (λ p, p.1 = k) l.
Proof.
  induction l as [|kx l IH]; cbn; [done|].
  fold (sort_desc l). rewrite insert_desc_filter, !filter_cons, IH. done.
Qed.

End sort_desc.

(** ** The order in which the grouper takes the letters *)

Section letter_order.
Variable conflicts : gmap string (gset string).

(** The number of conflicts of a letter. *)
Definition degree_of (L : string) : Z :=
  match conflicts !! L with Some s => Z.of_nat (size s) | None => 0 end.

(** The two sort keys of the specification: more conflicts first, then the
    lexicographic order of the letters. *)
Definition before (L1 L2 : string) : Prop :=
  degree_of L2 < degree_of L1
  ∨ (degree_of L1 = degree_of L2 ∧ String.le L1 L2).

#[global] Instance before_dec : RelDecision before.
Proof. intros L1 L2. unfold before. apply _. Defined.

(** The letters sorted by the two keys. *)
Definition spec_order (letters : list string) : list string :=
  merge_sort before letters.

#[global] Instance before_trans : Transitive before.
Proof.
  intros a b c [Hab|[Hab Hl1]] [Hbc|[Hbc Hl2]]; unfold before.
  - left. lia.
  - left. lia.
  - left. lia.
  - right. split; [lia|]. by trans b.
Qed.

#[global] Instance before_total : Total before.
Proof.
  intros a b. unfold before.
  destruct (Z.lt_trichotomy (degree_of a) (degree_of b)) as [?|[?|?]].
  - right. by left.
  - destruct (total String.le a b); [left|right]; right; done.
  - left. by left.
Qed.

#[global] Instance before_antisym : AntiSymm (=) before.
Proof.
  intros a b [?|[? Hab]] [?|[? Hba]]; try lia.
  by apply (anti_symm String.le).
Qed.

Definition decorate (letters : list string) : list (Z * string) :=
  (λ L, (degree_of L, L)) <$> letters.

Lemma degree_Ok (L : string) :
  is_Some (conflicts !! L) → degree conflicts L = Ok (degree_of L).
Proof.
  intros [s Hs]. unfold degree, degree_of.
  by rewrite (getitem_lookup _ _ _ Hs), Hs.
Qed.

Lemma decorate_Ok (letters : list string) :
  (∀ L, L ∈ letters → is_Some (conflicts !! L)) →
  map_result (λ L, k ← degree conflicts L; Ok (k, L)) letters
  = Ok (decorate letters).
Proof.
  induction letters as [|L letters IH]; intros Hk; [done|].
  cbn [map_result]. rewrite degree_Ok by (apply Hk; by left).
  cbn [mbind result_bind]. rewrite IH; [done|].
  intros L' HL'. apply Hk. by right.
Qed.

Lemma sorted_by_key_reverse_Ok (letters : list string) :
  (∀ L, L ∈ letters → is_Some (conflicts !! L)) →
  sorted_by_key_reverse (degree conflicts) letters
  = Ok (snd <$> sort_desc (decorate letters)).
Proof.
  intros Hk. unfold sorted_by_key_reverse. by rewrite decorate_Ok.
Qed.

Lemma decorate_snd (letters : list string) : snd <$> decorate letters = letters.
Proof.
  unfold decorate. rewrite <-list_fmap_compose. apply list_fmap_id.
Qed.

Lemma letters_sorted_Permutation (letters : list string) :
  snd <$> sort_desc (decorate letters) ≡ₚ letters.
Proof. by rewrite sort_desc_Permutation, decorate_snd. Qed.

(** On a list in lexicographic order the stable sort by descending degree
    is the sort by the two keys. *)
Lemma letters_sorted_spec_order (letters : list string) :
  StronglySorted String.le letters →
  snd <$> sort_desc (decorate letters) = spec_order letters.
Proof.
  intros Hs. unfold spec_order.
  apply (StronglySorted_unique before).
  - apply (StronglySorted_fmap snd
             (λ a b, a.1 = degree_of a.2 ∧ b.1 = degree_of b.2
                     ∧ desc_then (λ a b, String.le a.2 b.2) a b)).
    { intros a b (Ha & Hb & [?|[? ?]]); unfold before;
        rewrite <-Ha, <-Hb; [by left|by right]. }
    assert (Forall (λ a, a.1 = degree_of a.2)
                   (sort_desc (decorate letters))) as Hdec.
    { rewrite sort_desc_Permutation. unfold decorate.
      apply Forall_fmap, Forall_forall. done. }
    assert (StronglySorted (desc_then (λ a b, String.le a.2 b.2))
                           (sort_desc (decorate letters))) as Hsd.
    { apply sort_desc_sorted. unfold decorate.
      eapply StronglySorted_fmap; [|exact Hs]. done. }
    revert Hdec Hsd. generalize (sort_desc (decorate letters)).
    induction l as [|a l IH]; intros Hdec Hsd; [constructor|].
    apply Forall_cons in Hdec as [Ha Hdec].
    apply StronglySorted_cons in Hsd as [Hal Hsd].
    constructor; [by apply IH|].
    rewrite Forall_forall in Hdec, Hal. apply Forall_forall.
    intros b Hb. split; [done|]. split; [by apply Hdec|by apply Hal].
  - apply StronglySorted_merge_sort; apply _.
  - by rewrite letters_sorted_Permutation, merge_sort_Permutation.
Qed.

End letter_order.

(** ** First fit *)

Section first_fit.
Variable conflicts : gmap string (gset string).
Variable max_group_size : Z.

(** The group has room and holds no letter in conflict with [L]. *)
Definition fits_group (L : string) (g : list string) : Prop :=
  Z.of_nat (length g) < max_group_size
  ∧ ∀ other s, other ∈ g → conflicts !! other = Some s → L ∉ s.

(** The letter goes to the end of the first group, in creation order, that
    fits; when no group fits, a new group of this letter alone is appended. *)
Definition first_fit (L : string) (groups groups' : list (list string))
  : Prop :=
  (∃ i g, groups !! i = Some g ∧ fits_group L g
          ∧ (∀ j g', (j < i)%nat → groups !! j = Some g' → ¬ fits_group L g')
          ∧ groups' = <[i := (g ++ [L])%list]> groups)
  ∨ ((∀ g, g ∈ groups → ¬ fits_group L g)
     ∧ groups' = (groups ++ [[L]])%list).

(** The letters placed one after the other. *)
Inductive first_fit_run
  : list string → list (list string) → list (list string) → Prop :=
  | first_fit_nil groups : first_fit_run [] groups groups
  | first_fit_cons L ls groups groups' groups'' :
      first_fit L groups groups' →
      first_fit_run ls groups' groups'' →
      first_fit_run (L :: ls) groups groups''.

Definition keys_of (g : list string) : Prop :=
  Forall (λ L, is_Some (conflicts !! L)) g.

Lemma no_conflict_in_spec (L : string) (g : list string) :
  keys_of g →
  ∃ b, no_conflict_in conflicts L g = Ok b
    ∧ (b = true ↔
       ∀ other s, other ∈ g → conflicts !! other = Some s → L ∉ s).
Proof.
  induction g as [|other g IH]; intros Hk.
  - exists true. split; [done|]. split; [|done].
    intros _ ? ? H. by apply elem_of_nil in H.
  - apply Forall_cons in Hk as [[s Hs] Hk].
    destruct (IH Hk) as (b & Hb & Hiff).
    cbn [no_conflict_in]. rewrite (getitem_lookup _ _ _ Hs).
    cbn [mbind result_bind]. case_decide as Hin.
    + exists false. split; [done|]. split; [done|].
      intros Hall. destruct (Hall other s); [by left|done..].
    + exists b. split; [done|]. rewrite Hiff. split.
      * intros Hall other' s' [->|Ho]%elem_of_cons Hs'.
        -- by simplify_eq.
        -- by apply (Hall other' s').
      * intros Hall other' s' Ho. apply Hall. by right.
Qed.

Lemma fits_spec (L : string) (g : list string) :
  keys_of g →
  ∃ b, fits conflicts max_group_size L g = Ok b
    ∧ (b = true ↔ fits_group L g).
Proof.
  intros Hk. unfold fits, fits_group. case_decide as Hlen.
  - destruct (no_conflict_in_spec L g Hk) as (b & Hb & Hiff).
    exists b. split; [done|]. rewrite Hiff. tauto.
  - exists false. split; [done|]. split; [done|]. tauto.
Qed.

Lemma place_spec (L : string) (groups : list (list string)) :
  Forall keys_of groups →
  ∃ groups', place conflicts max_group_size L groups = Ok groups'
    ∧ first_fit L groups groups'.
Proof.
  induction groups as [|g groups IH]; intros Hk.
  - exists [[L]]. split; [done|]. right. split; [|done].
    intros g Hg. by apply elem_of_nil in Hg.
  - apply Forall_cons in Hk as [Hg Hk].
    destruct (fits_spec L g Hg) as (b & Hb & Hiff).
    cbn [place]. rewrite Hb. cbn [mbind result_bind]. destruct b.
    + eexists. split; [done|]. left. exists 0%nat, g.
      split; [done|]. split; [by apply Hiff|]. split; [|done].
      intros j g' Hj. lia.
    + destruct (IH Hk) as (groups' & -> & Hff). cbn [mbind result_bind].
      exists (g :: groups'). split; [done|].
      assert (¬ fits_group L g) as Hnot.
      { intros Hf. apply Hiff in Hf. discriminate. }
      destruct Hff as [(i & g1 & Hi & Hf & Hmin & ->)|[Hnone ->]].
      * left. exists (S i), g1. split; [done|]. split; [done|].
        split; [|done]. intros [|j] g' Hj Hg'.
        -- by simplify_eq/=.
        -- apply (Hmin j); [lia|done].
      * right. split; [|done]. intros g' [->|Hg']%elem_of_cons; auto.
Qed.

Lemma first_fit_det (L : string) (groups g1 g2 : list (list string)) :
  first_fit L groups g1 → first_fit L groups g2 → g1 = g2.
Proof.
  intros [(i & a & Hi & Hfa & Hmina & ->)|[Hnone ->]]
         [(j & b & Hj & Hfb & Hminb & ->)|[Hnone' ->]].
  - assert (i = j) as ->.
    { destruct (Nat.lt_trichotomy i j) as [Hlt|[->|Hlt]]; [|done|].
      - destruct (Hminb i a Hlt Hi Hfa).
      - destruct (Hmina j b Hlt Hj Hfb). }
    by simplify_eq.
  - destruct (Hnone' a); [|done]. by eapply list_elem_of_lookup_2.
  - destruct (Hnone b); [|done]. by eapply list_elem_of_lookup_2.
  - done.
Qed.

Lemma first_fit_run_det (ls : list string) (groups g1 g2 : list (list string)) :
  first_fit_run ls groups g1 → first_fit_run ls groups g2 → g1 = g2.
Proof.
  intros H1. revert g2. induction H1 as [|L ls groups groups' g1 Hff _ IH];
    intros g2 H2; inv H2; [done|].
  apply IH.
  match goal with
  | H : first_fit L groups ?g |- _ =>
      by rewrite (first_fit_det L groups groups' g Hff H)
  end.
Qed.

Lemma first_fit_Permutation (L : string) (groups groups' : list (list string)) :
  first_fit L groups groups' → concat groups' ≡ₚ L :: concat groups.
Proof.
  intros [(i & g & Hi & _ & _ & ->)|[_ ->]].
  - apply list_elem_of_split_length in Hi as (l1 & l2 & -> & ->).
    rewrite insert_app_r_alt by lia. rewrite Nat.sub_diag. cbn [insert].
    rewrite !concat_app. cbn [concat list_insert].
    rewrite <-(assoc_L (++) g). cbn [app].
    by rewrite <-!Permutation_middle.
  - rewrite concat_app. cbn [concat]. rewrite app_nil_r.
    by rewrite <-Permutation_cons_append.
Qed.

Lemma first_fit_sizes (L : string) (groups groups' : list (list string)) :
  1 ≤ max_group_size →
  first_fit L groups groups' →
  Forall (λ g, 1 ≤ Z.of_nat (length g) ≤ max_group_size) groups →
  Forall (λ g, 1 ≤ Z.of_nat (length g) ≤ max_group_size) groups'.
Proof.
  intros Hmax [(i & g & Hi & [Hlen _] & _ & ->)|[_ ->]] Hall.
  - apply Forall_insert; [done|]. rewrite length_app. cbn. lia.
  - apply Forall_app. split; [done|]. constructor; [|done]. cbn. lia.
Qed.

Lemma first_fit_keys (L : string) (groups groups' : list (list string)) :
  is_Some (conflicts !! L) →
  first_fit L groups groups' →
  Forall keys_of groups → Forall keys_of groups'.
Proof.
  intros HL [(i & g & Hi & _ & _ & ->)|[_ ->]] Hall.
  - apply Forall_insert; [done|]. apply Forall_app. split.
    + rewrite Forall_forall in Hall. apply Hall.
      by eapply list_elem_of_lookup_2.
    + by constructor.
  - apply Forall_app. split; [done|]. by repeat constructor.
Qed.

Lemma for_each_place_spec (ls : list string) (groups : list (list string)) :
  keys_of ls → Forall keys_of groups →
  ∃ groups', for_each (place conflicts max_group_size) ls groups = Ok groups'
    ∧ first_fit_run ls groups groups'.
Proof.
  revert groups. induction ls as [|L ls IH]; intros groups Hls Hk.
  - exists groups. split; [done|]. constructor.
  - apply Forall_cons in Hls as [HL Hls].
    destruct (place_spec L groups Hk) as (groups1 & H1 & Hff).
    destruct (IH groups1 Hls) as (groups' & H' & Hrun).
    { by eapply first_fit_keys. }
    exists groups'. cbn [for_each]. rewrite H1. cbn [mbind result_bind].
    split; [done|]. by econstructor.
Qed.

Lemma first_fit_run_Permutation (ls : list string)
    (groups groups' : list (list string)) :
  first_fit_run ls groups groups' →
  concat groups' ≡ₚ (ls ++ concat groups)%list.
Proof.
  induction 1 as [|L ls groups groups' groups'' Hff _ IH]; [done|].
  rewrite IH, (first_fit_Permutation _ _ _ Hff).
  cbn. by rewrite <-Permutation_middle.
Qed.

Lemma first_fit_run_sizes (ls : list string)
    (groups groups' : list (list string)) :
  1 ≤ max_group_size →
  first_fit_run ls groups groups' →
  Forall (λ g, 1 ≤ Z.of_nat (length g) ≤ max_group_size) groups →
  Forall (λ g, 1 ≤ Z.of_nat (length g) ≤ max_group_size) groups'.
Proof.
  intros Hmax. induction 1; [done|]. intros Hall.
  eauto using first_fit_sizes.
Qed.

End first_fit.

(** ** The greedy grouper *)

Lemma elem_of_concat {A} (groups : list (list A)) (x : A) :
  x ∈ concat groups ↔ ∃ g, g ∈ groups ∧ x ∈ g.
Proof.
  induction groups as [|g0 groups IH]; cbn [concat].
  - split; [intros H; by apply elem_of_nil in H|].
    intros (g & Hg & _). by apply elem_of_nil in Hg.
  - rewrite elem_of_app, IH. split.
    + intros [Hx|(g & Hg & Hx)].
      * exists g0. split; [by left|done].
      * exists g. split; [by right|done].
    + intros (g & [->|Hg]%elem_of_cons & Hx); [by left|].
      right. by exists g.
Qed.

Lemma NoDup_concat_unique {A} (groups : list (list A)) (x : A) i j g g' :
  NoDup (concat groups) →
  groups !! i = Some g → groups !! j = Some g' → x ∈ g → x ∈ g' → i = j.
Proof.
  revert i j. induction groups as [|g0 groups IH]; intros i j Hnd Hi Hj Hx Hx'.
  - by rewrite lookup_nil in Hi.
  - cbn [concat] in Hnd. apply NoDup_app in Hnd as (_ & Hdisj & Hnd).
    assert (∀ k h, groups !! k = Some h → x ∈ h → x ∈ concat groups) as Hin.
    { intros k h Hk Hh. apply elem_of_concat. exists h. split; [|done].
      by eapply list_elem_of_lookup_2. }
    destruct i as [|i], j as [|j]; cbn in Hi, Hj.
    + done.
    + simplify_eq. destruct (Hdisj x Hx). by eapply Hin.
    + simplify_eq. destruct (Hdisj x Hx'). by eapply Hin.
    + f_equal. by eapply IH.
Qed.

Lemma greedy_group_letters_run (letters : list string)
    (conflicts : gmap string (gset string)) (max_group_size : Z) :
  (∀ L, L ∈ letters → is_Some (conflicts !! L)) →
  ∃ groups,
    greedy_group_letters letters conflicts max_group_size = Ok groups
    ∧ first_fit_run conflicts max_group_size
        (snd <$> sort_desc (decorate conflicts letters)) [] groups.
Proof.
  intros Hk. unfold greedy_group_letters.
  rewrite (sorted_by_key_reverse_Ok conflicts letters Hk).
  cbn [mbind result_bind]. apply for_each_place_spec; [|constructor].
  unfold keys_of. rewrite letters_sorted_Permutation.
  by apply Forall_forall.
Qed.

(** C3. For letters that are keys of the conflict mapping and a maximal
    size of at least 1, [greedy_group_letters] returns groups (it does not
    raise); every group has between 1 and [max_group_size] letters; the
    groups together hold the input letters, each as often as the input
    does; and for distinct input letters no letter is repeated within a
    group or across groups, so that each letter is in exactly one group. *)
Theorem greedy_partition (letters : list string)
    (conflicts : gmap string (gset string)) (max_group_size : Z) :
  (∀ L, L ∈ letters → is_Some (conflicts !! L)) →
  1 ≤ max_group_size →
  ∃ groups,
    greedy_group_letters letters conflicts max_group_size = Ok groups
    ∧ Forall (λ g, 1 ≤ Z.of_nat (length g) ≤ max_group_size) groups
    ∧ concat groups ≡ₚ letters
    ∧ (∀ L, L ∈ letters ↔ ∃ g, g ∈ groups ∧ L ∈ g)
    ∧ (NoDup letters →
       NoDup (concat groups)
       ∧ ∀ L i j g g', groups !! i = Some g → groups !! j = Some g' →
                       L ∈ g → L ∈ g' → i = j).
Proof.
  intros Hk Hmax.
  destruct (greedy_group_letters_run letters conflicts max_group_size Hk)
    as (groups & Hg & Hrun).
  assert (concat groups ≡ₚ letters) as Hperm.
  { rewrite (first_fit_run_Permutation _ _ _ _ _ Hrun). cbn [concat].
    by rewrite app_nil_r, letters_sorted_Permutation. }
  exists groups. split; [done|]. split; [|split; [done|split]].
  - eapply first_fit_run_sizes; [done|exact Hrun|constructor].
  - intros L. by rewrite <-Hperm, elem_of_concat.
  - intros Hnd. assert (NoDup (concat groups)) as Hnd'.
    { by rewrite Hperm. }
    split; [done|]. intros L i j g g'. by apply NoDup_concat_unique.
Qed.

Module ScenarioConflicts.

(** The conflict mapping of the letters A and B of the scenario. *)
Definition conflicts : gmap string (gset string) :=
  {["A" := {["B"]}; "B" := {["A"]}]}.

Lemma keys : ∀ L, L ∈ Scenario.letters → is_Some (conflicts !! L).
Proof.
  apply Forall_forall. apply (bool_decide_unpack _). vm_compute. exact I.
Defined.

Lemma sorted : StronglySorted String.le Scenario.letters.
Proof. repeat constructor. Defined.

End ScenarioConflicts.

Lemma greedy_partition_witness :
  ∃ groups,
    greedy_group_letters Scenario.letters ScenarioConflicts.conflicts 4
    = Ok groups
    ∧ Forall (λ g, 1 ≤ Z.of_nat (length g) ≤ 4) groups
    ∧ concat groups ≡ₚ Scenario.letters
    ∧ (∀ L, L ∈ Scenario.letters ↔ ∃ g, g ∈ groups ∧ L ∈ g)
    ∧ (NoDup Scenario.letters →
       NoDup (concat groups)
       ∧ ∀ L i j g g', groups !! i = Some g → groups !! j = Some g' →
                       L ∈ g → L ∈ g' → i = j).
Proof.
  apply (greedy_partition Scenario.letters ScenarioConflicts.conflicts 4).
  - exact ScenarioConflicts.keys.
  - lia.
Defined.

(** C4. For letters in lexicographic order that are keys of the conflict
    mapping, the grouper takes the letters in the order of the two sort
    keys (more conflicts first, then the lexicographic order) and returns
    the outcome of placing them one after the other by first fit; that
    outcome is unique, so equal inputs give equal groups. *)
Theorem greedy_first_fit_decreasing (letters : list string)
    (conflicts : gmap string (gset string)) (max_group_size : Z) :
  (∀ L, L ∈ letters → is_Some (conflicts !! L)) →
  StronglySorted String.le letters →
  ∃ groups,
    greedy_group_letters letters conflicts max_group_size = Ok groups
    ∧ sorted_by_key_reverse (degree conflicts) letters
      = Ok (spec_order conflicts letters)
    ∧ first_fit_run conflicts max_group_size
        (spec_order conflicts letters) [] groups
    ∧ ∀ groups',
        first_fit_run conflicts max_group_size
          (spec_order conflicts letters) [] groups' →
        groups' = groups.
Proof.
  intros Hk Hs.
  destruct (greedy_group_letters_run letters conflicts max_group_size Hk)
    as (groups & Hg & Hrun).
  rewrite (letters_sorted_spec_order conflicts letters Hs) in Hrun.
  exists groups. split; [done|]. split; [|split; [done|]].
  - rewrite (sorted_by_key_reverse_Ok conflicts letters Hk).
    by rewrite (letters_sorted_spec_order conflicts letters Hs).
  - intros groups' Hrun'. by eapply first_fit_run_det.
Qed.

Lemma greedy_first_fit_decreasing_witness :
  ∃ groups,
    greedy_group_letters Scenario.letters ScenarioConflicts.conflicts 4
    = Ok groups
    ∧ sorted_by_key_reverse (degree ScenarioConflicts.conflicts)
        Scenario.letters
      = Ok (spec_order ScenarioConflicts.conflicts Scenario.letters)
    ∧ first_fit_run ScenarioConflicts.conflicts 4
        (spec_order ScenarioConflicts.conflicts Scenario.letters) [] groups
    ∧ ∀ groups',
        first_fit_run ScenarioConflicts.conflicts 4
          (spec_order ScenarioConflicts.conflicts Scenario.letters) []
          groups' →
        groups' = groups.
Proof.
  apply (greedy_first_fit_decreasing Scenario.letters
           ScenarioConflicts.conflicts 4).
  - exact ScenarioConflicts.keys.
  - exact ScenarioConflicts.sorted.
Defined.

Example greedy_scenario :
  greedy_group_letters Scenario.letters ScenarioConflicts.conflicts 4
  = Ok [["A"]; ["B"]].
Proof. vm_compute. reflexivity. Qed.

(** ** Class columns *)

(** One year digit 1-5 followed by one uppercase letter A-Z. *)
Definition class_shape (s : string) : Prop :=
  ∃ d l, s = String d (String l EmptyString)
         ∧ (Py.code "1" ≤ Py.code d ≤ Py.code "5")%N
         ∧ (Py.code "A" ≤ Py.code l ≤ Py.code "Z")%N.

Lemma fullmatch_class_Some (s : string) (d l : ascii) :
  Py.fullmatch_class s = Some (d, l) ↔
  s = String d (String l EmptyString)
  ∧ (Py.code "1" ≤ Py.code d ≤ Py.code "5")%N
  ∧ (Py.code "A" ≤ Py.code l ≤ Py.code "Z")%N.
Proof.
  change (Py.code "1") with 49%N. change (Py.code "5") with 53%N.
  change (Py.code "A") with 65%N. change (Py.code "Z") with 90%N.
  unfold Py.fullmatch_class, Py.is_year_digit, Py.is_upper.
  destruct s as [|d' [|l' [|? ?]]]; try (split; [done|by intros [? _]]).
  destruct ((49 <=? Py.code d')%N) eqn:E1, ((Py.code d' <=? 53)%N) eqn:E2,
           ((65 <=? Py.code l')%N) eqn:E3, ((Py.code l' <=? 90)%N) eqn:E4;
    cbn [andb];
    rewrite ?N.leb_le, ?N.leb_gt in *;
    (split; [intros [= <- <-]|intros ([= <- <-] & ? & ?)]); try done; lia.
Qed.

Lemma parse_class_Some (c : string) (y : Z) (L : string) :
  parse_class c = Some (y, L) ↔
  ∃ d l, Py.fullmatch_class (Py.strip c) = Some (d, l)
         ∧ y = Py.int_of_digit d ∧ L = String l EmptyString.
Proof.
  unfold parse_class.
  destruct (Py.fullmatch_class (Py.strip c)) as [[d l]|]; split.
  - intros [= <- <-]. by exists d, l.
  - intros (d' & l' & [= <- <-] & -> & ->). done.
  - done.
  - intros (? & ? & ? & _). done.
Qed.

Lemma parse_class_is_Some (c : string) :
  is_Some (parse_class c) ↔ class_shape (Py.strip c).
Proof.
  unfold class_shape. split.
  - intros [[y L] H]. apply parse_class_Some in H as (d & l & H & _).
    apply fullmatch_class_Some in H. by exists d, l.
  - intros (d & l & H). apply fullmatch_class_Some in H.
    exists (Py.int_of_digit d, String l EmptyString).
    apply parse_class_Some. by exists d, l.
Qed.

Lemma parse_class_year (c : string) (y : Z) (L : string) :
  parse_class c = Some (y, L) → 1 ≤ y ≤ 5.
Proof.
  intros (d & l & H & -> & _)%parse_class_Some.
  apply fullmatch_class_Some in H as (_ & Hd & _).
  change (Py.code "1") with 49%N in Hd. change (Py.code "5") with 53%N in Hd.
  unfold Py.int_of_digit. lia.
Qed.

Lemma parse_class_nonempty (c : string) (k : Z * string) :
  parse_class c = Some k → c ≠ "".
Proof. intros H ->. vm_compute in H. discriminate. Qed.

Lemma elem_of_valid_cols (df : DataFrame) (c : string) :
  c ∈ valid_cols df ↔ c ∈ columns df ∧ is_Some (parse_class c).
Proof.
  unfold valid_cols, class_cols. rewrite !list_elem_of_filter. split.
  - tauto.
  - intros [Hc Hp]. split; [done|]. split; [|done].
    intros ->. destruct Hp as [k Hk]. vm_compute in Hk. discriminate.
Qed.

Example parse_class_examples :
  parse_class "3B" = Some (3, "B") ∧ parse_class "6A" = None
  ∧ parse_class "1a" = None ∧ parse_class "Docente" = None
  ∧ parse_class " 1A" = Some (1, "A").
Proof. vm_compute. done. Qed.

(** ** The registry *)

Lemma StronglySorted_filter {A} (R : relation A) (P : A → Prop)
    `{∀ x, Decision (P x)} (l : list A) :
  StronglySorted R l → StronglySorted R (filter P l).
Proof.
  induction 1 as [|x l Hs IH Hx]; [constructor|].
  rewrite filter_cons. case_decide; [|done].
  constructor; [done|]. rewrite Forall_forall in Hx. apply Forall_forall.
  intros y Hy. apply list_elem_of_filter in Hy as [_ Hy]. by apply Hx.
Qed.

Lemma year_letter_to_class_lookup (cols : list string) (k : Z * string)
    (c : string) :
  build_year_letter_to_class cols !! k = Some c →
  c ∈ cols ∧ parse_class c = Some k.
Proof.
  unfold build_year_letter_to_class.
  enough (∀ m : gmap (Z * string) string,
            foldl (λ m c, match parse_class c with
                          | Some k => <[k := c]> m
                          | None => m
                          end) m cols !! k = Some c →
            (c ∈ cols ∧ parse_class c = Some k) ∨ m !! k = Some c) as Hgen.
  { intros H. destruct (Hgen ∅ H) as [?|Hm]; [done|].
    by rewrite lookup_empty in Hm. }
  induction cols as [|c' cols IH]; intros m; cbn [foldl]; [by right|].
  intros H. apply IH in H as [[Hin Hp]|H].
  - left. split; [by right|done].
  - destruct (parse_class c') as [k'|] eqn:Hp'; [|by right].
    destruct (decide (k' = k)) as [->|Hne].
    + rewrite lookup_insert_eq in H. simplify_eq. left.
      split; [by left|done].
    + rewrite lookup_insert_ne in H by done. by right.
Qed.

Lemma year_letter_to_class_is_Some (cols : list string) (k : Z * string) :
  is_Some (build_year_letter_to_class cols !! k) ↔
  ∃ c, c ∈ cols ∧ parse_class c = Some k.
Proof.
  split.
  - intros [c Hc]. exists c. by apply year_letter_to_class_lookup.
  - unfold build_year_letter_to_class.
    enough (∀ m : gmap (Z * string) string,
              (∃ c, c ∈ cols ∧ parse_class c = Some k) ∨ is_Some (m !! k) →
              is_Some (foldl (λ m c, match parse_class c with
                                     | Some k => <[k := c]> m
                                     | None => m
                                     end) m cols !! k)) as Hgen.
    { intros H. apply Hgen. by left. }
    induction cols as [|c' cols IH]; intros m; cbn [foldl].
    + intros [(c & Hc & _)|H]; [by apply elem_of_nil in Hc|done].
    + intros [(c & [->|Hc]%elem_of_cons & Hp)|H]; apply IH.
      * right. rewrite Hp, lookup_insert_eq. by eexists.
      * left. by exists c.
      * right. destruct (parse_class c') as [k'|]; [|done].
        destruct (decide (k' = k)) as [->|Hne].
        -- rewrite lookup_insert_eq. by eexists.
        -- by rewrite lookup_insert_ne.
Qed.

Lemma elem_of_letters_of (ylc : gmap (Z * string) string) (L : string) :
  L ∈ letters_of ylc ↔ ∃ y, is_Some (ylc !! (y, L)).
Proof.
  unfold letters_of, sorted_set.
  rewrite merge_sort_Permutation, elem_of_elements, elem_of_map. split.
  - intros ([y L'] & -> & Hin). exists y. by apply elem_of_dom.
  - intros (y & Hy). exists (y, L). split; [done|]. by apply elem_of_dom.
Qed.

Lemma letters_of_NoDup (ylc : gmap (Z * string) string) :
  NoDup (letters_of ylc).
Proof.
  unfold letters_of, sorted_set. rewrite merge_sort_Permutation.
  apply NoDup_elements.
Qed.

Lemma letters_of_sorted (ylc : gmap (Z * string) string) :
  StronglySorted String.le (letters_of ylc).
Proof. apply StronglySorted_merge_sort; apply _. Qed.

Lemma is_complete_true (ylc : gmap (Z * string) string) (L : string) :
  is_complete ylc L = true ↔ ∀ y, 1 ≤ y ≤ 5 → is_Some (ylc !! (y, L)).
Proof.
  unfold is_complete. fold years. rewrite forallb_forall. split.
  - intros H y Hy. apply elem_of_years, list_elem_of_In, H in Hy.
    by apply bool_decide_eq_true in Hy.
  - intros H y Hy. apply bool_decide_eq_true, H, elem_of_years.
    by apply list_elem_of_In.
Qed.

Lemma elem_of_complete_letters_of (ylc : gmap (Z * string) string)
    (L : string) :
  L ∈ complete_letters_of ylc ↔ ∀ y, 1 ≤ y ≤ 5 → is_Some (ylc !! (y, L)).
Proof.
  unfold complete_letters_of.
  rewrite list_elem_of_filter, is_complete_true, elem_of_letters_of.
  split; [tauto|]. intros H. split; [done|]. exists 1. apply H. lia.
Qed.

Lemma complete_letters_of_NoDup (ylc : gmap (Z * string) string) :
  NoDup (complete_letters_of ylc).
Proof. apply NoDup_filter, letters_of_NoDup. Qed.

Lemma complete_letters_of_sorted (ylc : gmap (Z * string) string) :
  StronglySorted String.le (complete_letters_of ylc).
Proof. apply StronglySorted_filter, letters_of_sorted. Qed.

Lemma col_index_is_Some (c : string) (cols : list string) :
  is_Some (col_index c cols) ↔ c ∈ cols.
Proof.
  unfold col_index. rewrite fmap_is_Some. split.
  - intros [[i x] H]. apply list_find_Some in H as (Hi & -> & _).
    by eapply list_elem_of_lookup_2.
  - intros Hin. destruct (list_find (λ x, x = c) cols) eqn:E; [done|].
    apply list_find_None in E. rewrite Forall_forall in E.
    by destruct (E c Hin).
Qed.

Lemma get_col_Ok (df : DataFrame) (c : string) :
  c ∈ columns df → ∃ col, get_col df c = Ok col ∧ length col = length (rows df).
Proof.
  intros Hin. apply col_index_is_Some in Hin as [i Hi].
  unfold get_col. rewrite Hi. eexists. split; [done|].
  by rewrite length_fmap.
Qed.

Lemma teachers_of_Ok (df : DataFrame) (c : string) :
  "Docente" ∈ columns df → c ∈ columns df →
  ∃ teachers, teachers_of df c = Ok teachers.
Proof.
  intros Hd Hc. destruct (get_col_Ok df c Hc) as (col & Hcol & _).
  destruct (get_col_Ok df "Docente" Hd) as (doc & Hdoc & _).
  unfold teachers_of. rewrite Hcol. cbn [mbind result_bind].
  rewrite Hdoc. cbn [mbind result_bind]. by eexists.
Qed.

Lemma build_class_to_teachers_Ok (df : DataFrame) (cols : list string) :
  "Docente" ∈ columns df → (∀ c, c ∈ cols → c ∈ columns df) →
  ∃ ctt, build_class_to_teachers df cols = Ok ctt
         ∧ ∀ c, is_Some (ctt !! c) ↔ c ∈ cols.
Proof.
  intros Hd. unfold build_class_to_teachers.
  enough (∀ m : gmap string (gset string),
            (∀ c, c ∈ cols → c ∈ columns df) →
            ∃ ctt,
              for_each (λ c m, teachers ← teachers_of df c;
                               Ok (<[c := teachers]> m)) cols m = Ok ctt
              ∧ ∀ c, is_Some (ctt !! c) ↔ c ∈ cols ∨ is_Some (m !! c))
    as Hgen.
  { intros Hc. destruct (Hgen ∅ Hc) as (ctt & Hctt & Hkeys).
    exists ctt. split; [done|]. intros c. rewrite Hkeys, lookup_empty.
    split; [intros [?|[? ?]]; done|by left]. }
  induction cols as [|c cols IH]; intros m Hc.
  - exists m. split; [done|]. intros c. split; [by right|].
    intros [H|?]; [by apply elem_of_nil in H|done].
  - destruct (teachers_of_Ok df c Hd) as (teachers & Ht); [apply Hc; by left|].
    cbn [for_each]. rewrite Ht. cbn [mbind result_bind].
    destruct (IH (<[c := teachers]> m)) as (ctt & Hctt & Hkeys).
    { intros c' Hc'. apply Hc. by right. }
    exists ctt. split; [done|]. intros c'. rewrite Hkeys.
    destruct (decide (c = c')) as [->|Hne].
    + rewrite lookup_insert_eq. split; [intros _; left; by left|].
      intros _. right. by eexists.
    + rewrite lookup_insert_ne by done. rewrite elem_of_cons. naive_solver.
Qed.

(** What [build_class_teacher_map] returns on a frame with its teacher
    column. *)
Lemma build_class_teacher_map_Ok (df : DataFrame) :
  "Docente" ∈ columns df →
  ∃ ctt, build_class_teacher_map df
         = Ok (valid_cols df, ctt,
               build_year_letter_to_class (valid_cols df),
               complete_letters_of (build_year_letter_to_class (valid_cols df)))
         ∧ ∀ c, is_Some (ctt !! c) ↔ c ∈ valid_cols df.
Proof.
  intros Hd. unfold build_class_teacher_map.
  destruct (build_class_to_teachers_Ok df (valid_cols df) Hd)
    as (ctt & Hctt & Hkeys).
  { intros c Hc. by apply elem_of_valid_cols in Hc as [? _]. }
  exists ctt. rewrite Hctt. done.
Qed.

Lemma build_class_teacher_map_inv (df : DataFrame) valid ctt ylc complete :
  build_class_teacher_map df = Ok (valid, ctt, ylc, complete) →
  valid = valid_cols df
  ∧ ylc = build_year_letter_to_class valid
  ∧ complete = complete_letters_of ylc
  ∧ build_class_to_teachers df valid = Ok ctt.
Proof.
  unfold build_class_teacher_map. intros H.
  apply bind_Ok in H as (ctt' & Hctt & [= <- <- <- <-]). done.
Qed.

Lemma build_class_to_teachers_keys (df : DataFrame) (cols : list string)
    (ctt : gmap string (gset string)) :
  build_class_to_teachers df cols = Ok ctt →
  ∀ c, is_Some (ctt !! c) ↔ c ∈ cols.
Proof.
  unfold build_class_to_teachers.
  enough (∀ m : gmap string (gset string),
            for_each (λ c m, teachers ← teachers_of df c;
                             Ok (<[c := teachers]> m)) cols m = Ok ctt →
            ∀ c, is_Some (ctt !! c) ↔ c ∈ cols ∨ is_Some (m !! c)) as Hgen.
  { intros H c. rewrite (Hgen ∅ H), lookup_empty.
    split; [intros [?|[? ?]]; done|by left]. }
  induction cols as [|c cols IH]; intros m; cbn [for_each].
  - intros [= ->] c. split; [by right|].
    intros [H|?]; [by apply elem_of_nil in H|done].
  - intros H. apply bind_Ok in H as (m' & Hm' & H).
    apply bind_Ok in Hm' as (teachers & _ & [= <-]).
    intros c'. rewrite (IH _ H), elem_of_cons.
    destruct (decide (c = c')) as [->|Hne].
    + rewrite lookup_insert_eq. split; [intros _; left; by left|].
      intros _. right. by eexists.
    + rewrite lookup_insert_ne by done. naive_solver.
Qed.

(** The complete letters of a registry are distinct, in lexicographic
    order, and have a class with its teacher set in each of the years. *)
Lemma registry_complete_letters (df : DataFrame) valid ctt ylc complete :
  build_class_teacher_map df = Ok (valid, ctt, ylc, complete) →
  NoDup complete ∧ StronglySorted String.le complete
  ∧ Forall (has_all_years ctt ylc) complete.
Proof.
  intros (-> & -> & -> & Hctt)%build_class_teacher_map_inv.
  split; [apply complete_letters_of_NoDup|].
  split; [apply complete_letters_of_sorted|].
  apply Forall_forall. intros L HL. unfold has_all_years.
  apply Forall_forall. intros y Hy. apply elem_of_years in Hy.
  rewrite elem_of_complete_letters_of in HL.
  destruct (HL y Hy) as [c Hc]. unfold teacher_set. rewrite Hc. cbn.
  apply (build_class_to_teachers_keys _ _ _ Hctt).
  by apply year_letter_to_class_lookup in Hc as [? _].
Qed.

(** C8 (the claim fails). A column whose name is a class label with a
    space before it is a valid class column, although the name does not
    have the shape of a class label. *)
Lemma padded_name_is_valid :
  " 1A" ∈ valid_cols (mkDataFrame ["Docente"; " 1A"] [])
  ∧ ¬ class_shape " 1A".
Proof.
  split.
  - apply elem_of_valid_cols. split; [cbn; set_solver|].
    by exists (1, "A").
  - intros (d & l & H & _). discriminate.
Qed.

(** C8 (amended). A column is a valid class column iff its name, once the
    surrounding whitespace is removed, is one year digit 1-5 followed by
    one uppercase letter A-Z; a column of another name is not in
    [valid_cols], does not make [build_class_teacher_map] raise, and does
    not count for the completeness of a letter, which is decided by the
    valid columns alone. *)
Theorem valid_cols_shape (df : DataFrame) :
  (∀ c, c ∈ valid_cols df ↔ c ∈ columns df ∧ class_shape (Py.strip c))
  ∧ ("Docente" ∈ columns df →
     ∃ ctt ylc complete,
       build_class_teacher_map df = Ok (valid_cols df, ctt, ylc, complete)
       ∧ ∀ L, L ∈ complete ↔
              ∀ y, 1 ≤ y ≤ 5 →
                   ∃ c, c ∈ columns df ∧ class_shape (Py.strip c)
                        ∧ parse_class c = Some (y, L)).
Proof.
  split.
  - intros c. by rewrite elem_of_valid_cols, parse_class_is_Some.
  - intros Hd. destruct (build_class_teacher_map_Ok df Hd) as (ctt & H & _).
    eexists _, _, _. split; [exact H|]. intros L.
    rewrite elem_of_complete_letters_of.
    split; intros HL y Hy; specialize (HL y Hy).
    + apply year_letter_to_class_is_Some in HL as (c & Hc & Hp).
      apply elem_of_valid_cols in Hc as [Hc Hs].
      exists c. split; [done|]. split; [|done].
      by apply parse_class_is_Some.
    + destruct HL as (c & Hc & _ & Hp).
      apply year_letter_to_class_is_Some. exists c. split; [|done].
      apply elem_of_valid_cols. split; [done|]. by eexists.
Qed.

(** A frame with the teacher column, the five classes of the letter A, and
    three columns that are not class columns. *)
Definition frame_D : DataFrame :=
  mkDataFrame ["Docente"; "1A"; "2A"; "3A"; "4A"; "5A"; "6A"; "1a"; "Note"]
    [[Val "Rossi"; Val "x"; Val "x"; NaN; NaN; Val "x";
      Val "x"; Val "x"; Val "x"];
     [Val "Bianchi"; NaN; NaN; Val "x"; Val "x"; NaN;
      Val "x"; NaN; NaN]].

Lemma valid_cols_shape_witness :
  ∃ ctt ylc complete,
    build_class_teacher_map frame_D = Ok (valid_cols frame_D, ctt, ylc, complete)
    ∧ ∀ L, L ∈ complete ↔
           ∀ y, 1 ≤ y ≤ 5 →
                ∃ c, c ∈ columns frame_D ∧ class_shape (Py.strip c)
                     ∧ parse_class c = Some (y, L).
Proof.
  apply (proj2 (valid_cols_shape frame_D)).
  apply (bool_decide_unpack _). vm_compute. exact I.
Defined.

Example frame_D_registry :
  valid_cols frame_D = ["1A"; "2A"; "3A"; "4A"; "5A"]
  ∧ complete_letters_of (build_year_letter_to_class (valid_cols frame_D))
    = ["A"].
Proof. vm_compute. done. Qed.

(** ** The table assembler *)

Lemma build_row_lookup (ylc : gmap (Z * string) string) (y : Z)
    (g : list string) (L : string) :
  build_row ylc y g !! L
  = if decide (L ∈ g) then Some (default "" (ylc !! (y, L))) else None.
Proof.
  unfold build_row.
  enough (∀ row : gmap string string,
            foldl (λ row L, <[L := default "" (ylc !! (y, L))]> row) row g !! L
            = if decide (L ∈ g) then Some (default "" (ylc !! (y, L)))
              else row !! L) as ->.
  { by rewrite lookup_empty. }
  induction g as [|L' g IH]; intros row; cbn [foldl].
  - rewrite decide_False; [done|]. apply not_elem_of_nil.
  - rewrite IH. destruct (decide (L ∈ g)) as [Hin|Hnin].
    + rewrite decide_True; [done|]. by right.
    + destruct (decide (L' = L)) as [->|Hne].
      * rewrite lookup_insert_eq, decide_True; [done|]. by left.
      * rewrite lookup_insert_ne by done. rewrite decide_False; [done|].
        intros [->|?]%elem_of_cons; done.
Qed.

Lemma index_build_grid (ylc : gmap (Z * string) string) (g : list string) :
  index (build_grid ylc g) = [1; 2; 3; 4; 5].
Proof. reflexivity. Qed.

Lemma loc_build_grid (ylc : gmap (Z * string) string) (g : list string)
    (y : Z) (L : string) :
  1 ≤ y ≤ 5 → L ∈ g →
  loc (build_grid ylc g) y L = Ok (default "" (ylc !! (y, L))).
Proof.
  intros Hy HL.
  assert (getitem (build_row ylc y g) L = Ok (default "" (ylc !! (y, L))))
    as Hrow.
  { apply getitem_lookup. rewrite build_row_lookup. by rewrite decide_True. }
  assert (y = 1 ∨ y = 2 ∨ y = 3 ∨ y = 4 ∨ y = 5) as Hcases by lia.
  destruct Hcases as [-> | [-> | [-> | [-> | ->]]]]; exact Hrow.
Qed.

Lemma build_tables_cell (groups : list (list string))
    (ylc : gmap (Z * string) string) (t : Table) :
  t ∈ build_tables groups ylc →
  letters_of_group t ∈ groups
  ∧ index (tab t) = [1; 2; 3; 4; 5]
  ∧ ∀ y L, y ∈ index (tab t) → L ∈ letters_of_group t →
      1 ≤ y ≤ 5 ∧ loc (tab t) y L = Ok (default "" (ylc !! (y, L))).
Proof.
  unfold build_tables. intros (i & g & -> & Hg)%elem_of_lookup_imap. cbn.
  apply list_elem_of_lookup_2 in Hg.
  split; [done|]. split; [done|]. intros y L Hy HL.
  rewrite index_build_grid, <-years_eq in Hy. apply elem_of_years in Hy.
  split; [done|]. by apply loc_build_grid.
Qed.

Lemma registry_class_of (df : DataFrame) valid ctt ylc complete
    (y : Z) (L : string) :
  build_class_teacher_map df = Ok (valid, ctt, ylc, complete) →
  L ∈ complete → 1 ≤ y ≤ 5 →
  ∃ c, ylc !! (y, L) = Some c ∧ c ∈ valid ∧ parse_class c = Some (y, L)
       ∧ is_Some (ctt !! c).
Proof.
  intros (-> & -> & -> & Hctt)%build_class_teacher_map_inv HL Hy.
  rewrite elem_of_complete_letters_of in HL.
  destruct (HL y Hy) as [c Hyc]. exists c.
  destruct (year_letter_to_class_lookup _ _ _ Hyc) as [Hin Hp].
  split; [done|]. split; [done|]. split; [done|].
  by apply (build_class_to_teachers_keys _ _ _ Hctt).
Qed.

(** C9. In the tables built from groups of complete letters of a registry,
    every cell holds the class label the registry has for its year and
    letter, a valid column name and hence not the empty string: the
    default of the lookup is not used. *)
Theorem complete_groups_have_no_empty_cell (df : DataFrame)
    valid ctt ylc complete (groups : list (list string)) :
  build_class_teacher_map df = Ok (valid, ctt, ylc, complete) →
  (∀ g L, g ∈ groups → L ∈ g → L ∈ complete) →
  ∀ t, t ∈ build_tables groups ylc →
    letters_of_group t ∈ groups
    ∧ index (tab t) = [1; 2; 3; 4; 5]
    ∧ ∀ y L, y ∈ index (tab t) → L ∈ letters_of_group t →
        ∃ c, loc (tab t) y L = Ok c ∧ c ≠ ""
             ∧ ylc !! (y, L) = Some c ∧ c ∈ valid
             ∧ parse_class c = Some (y, L).
Proof.
  intros Hmap Hgroups t Ht.
  destruct (build_tables_cell groups ylc t Ht) as (Hg & Hidx & Hcell).
  split; [done|]. split; [done|]. intros y L Hy HL.
  destruct (Hcell y L Hy HL) as [Hy' Hloc].
  destruct (registry_class_of df valid ctt ylc complete y L Hmap)
    as (c & Hyc & Hin & Hp & _); [by eapply Hgroups|done|].
  exists c. rewrite Hloc, Hyc. cbn.
  split; [done|]. split; [by eapply parse_class_nonempty|done].
Qed.

(** The registry of [frame_D]. *)
Definition teachers_D : gmap string (gset string) :=
  {["1A" := {["Rossi"]}; "2A" := {["Rossi"]}; "3A" := {["Bianchi"]};
    "4A" := {["Bianchi"]}; "5A" := {["Rossi"]}]}.

Definition classes_D : gmap (Z * string) string :=
  {[(1, "A") := "1A"; (2, "A") := "2A"; (3, "A") := "3A";
    (4, "A") := "4A"; (5, "A") := "5A"]}.

Lemma frame_D_map :
  build_class_teacher_map frame_D
  = Ok (["1A"; "2A"; "3A"; "4A"; "5A"], teachers_D, classes_D, ["A"]).
Proof. vm_compute. reflexivity. Defined.

Definition table_D : Table := mkTable 1 ["A"] (build_grid classes_D ["A"]).

Lemma complete_groups_have_no_empty_cell_witness :
  letters_of_group table_D ∈ [["A"]]
  ∧ index (tab table_D) = [1; 2; 3; 4; 5]
  ∧ ∀ y L, y ∈ index (tab table_D) → L ∈ letters_of_group table_D →
      ∃ c, loc (tab table_D) y L = Ok c ∧ c ≠ ""
           ∧ classes_D !! (y, L) = Some c
           ∧ c ∈ ["1A"; "2A"; "3A"; "4A"; "5A"]
           ∧ parse_class c = Some (y, L).
Proof.
  apply (complete_groups_have_no_empty_cell frame_D
           ["1A"; "2A"; "3A"; "4A"; "5A"] teachers_D classes_D ["A"] [["A"]]).
  - exact frame_D_map.
  - intros g L Hg HL. apply list_elem_of_singleton in Hg. by subst g.
  - apply list_elem_of_singleton. reflexivity.
Defined.

(** ** Loading *)

Lemma col_index_cons (c x : string) (cols : list string) :
  col_index c (x :: cols)
  = if decide (x = c) then Some 0%nat else S <$> col_index c cols.
Proof.
  unfold col_index. cbn [list_find]. case_decide; [done|].
  by destruct (list_find (λ x, x = c) cols) as [[i y]|].
Qed.

Lemma col_index_rename (c new : string) (cols : list string) :
  new ∉ cols →
  col_index new ((λ x, if decide (x = c) then new else x) <$> cols)
  = col_index c cols.
Proof.
  induction cols as [|x cols IH]; intros Hnew; [done|].
  apply not_elem_of_cons in Hnew as [Hx Hnew].
  cbn [fmap list_fmap]. rewrite !col_index_cons.
  destruct (decide (x = c)) as [->|Hne].
  - by rewrite decide_True.
  - rewrite decide_False by done. f_equal. by apply IH.
Qed.

Lemma get_col_rename (df : DataFrame) (c new : string) :
  new ∉ columns df → get_col (rename df c new) new = get_col df c.
Proof.
  intros Hnew. unfold get_col, rename. cbn [columns rows].
  by rewrite col_index_rename.
Qed.

Lemma get_col_set_col (df : DataFrame) (c : string) (values : list cell) :
  c ∈ columns df → length values = length (rows df) →
  get_col (set_col df c values) c = Ok values
  ∧ columns (set_col df c values) = columns df.
Proof.
  intros [i Hi]%col_index_is_Some Hlen. unfold get_col, set_col.
  rewrite Hi. cbn [columns rows]. rewrite Hi. split; [|done]. f_equal.
  revert values Hlen. induction (rows df) as [|r rs IH];
    intros [|v values] Hlen; try done.
  cbn [zip_with fmap list_fmap]. f_equal.
  - unfold cell_at. rewrite list_lookup_insert_eq; [done|].
    rewrite length_app, length_replicate. lia.
  - apply IH. cbn in Hlen. lia.
Qed.

(** A column by which the teacher column is located. *)
Definition locates (c : string) : Prop :=
  c = "Docente" ∨ Py.lower (Py.strip c) = "docente".

Lemma is_docente_true (c : string) :
  is_docente c = true ↔ Py.lower (Py.strip c) = "docente".
Proof. unfold is_docente. by rewrite bool_decide_eq_true. Qed.

(** The column [load_df] takes as the teacher column. *)
Definition teacher_column (parsed : DataFrame) : option string :=
  if decide ("Docente" ∈ columns parsed) then Some "Docente"
  else snd <$> list_find (λ c, is_docente c = true) (columns parsed).

Lemma teacher_column_Some (parsed : DataFrame) (c : string) :
  teacher_column parsed = Some c → c ∈ columns parsed ∧ locates c.
Proof.
  unfold teacher_column, locates. case_decide as Hd.
  - intros [= <-]. split; [done|by left].
  - intros H. apply fmap_Some in H as ([i c'] & H & ->).
    apply list_find_Some in H as (Hi & Hc & _).
    split; [by eapply list_elem_of_lookup_2|].
    right. by apply is_docente_true.
Qed.

Lemma teacher_column_None (parsed : DataFrame) :
  teacher_column parsed = None ↔
  ¬ ∃ c, c ∈ columns parsed ∧ locates c.
Proof.
  unfold teacher_column, locates. case_decide as Hd.
  - split; [done|]. intros H. destruct H. exists "Docente". split; [done|].
    by left.
  - rewrite fmap_None, list_find_None, Forall_forall. split.
    + intros Hall (c & Hc & [->|Hl]); [done|].
      apply (Hall c Hc). by apply is_docente_true.
    + intros Hno c Hc Hl. apply Hno. exists c. split; [done|].
      right. by apply is_docente_true.
Qed.

Lemma load_df_located (parsed : DataFrame) (c : string) :
  teacher_column parsed = Some c →
  ∃ df old,
    load_df parsed = Ok df
    ∧ get_col parsed c = Ok old
    ∧ get_col df "Docente" = Ok ((λ v, Val (Py.strip (astype_str v))) <$> old)
    ∧ columns df
      = (λ x, if decide (x = c) then "Docente" else x) <$> columns parsed.
Proof.
  intros Hc. unfold load_df.
  assert (∃ old, get_col parsed c = Ok old
                 ∧ get_col (normalize_docente parsed) "Docente" = Ok old
                 ∧ rows (normalize_docente parsed) = rows parsed
                 ∧ columns (normalize_docente parsed)
                   = (λ x, if decide (x = c) then "Docente" else x)
                       <$> columns parsed
                 ∧ "Docente" ∈ columns (normalize_docente parsed))
    as (old & Hold & Hnew & Hrows & Hcols & Hin).
  { pose proof (teacher_column_Some parsed c Hc) as [Hcin _].
    destruct (get_col_Ok parsed c Hcin) as (old & Hold & _).
    exists old. split; [done|].
    unfold teacher_column in Hc. unfold normalize_docente.
    case_decide as Hd.
    - injection Hc as <-. split; [done|]. split; [done|]. split; [|done].
      symmetry. etrans; [|apply list_fmap_id]. apply list_fmap_ext.
      intros i x _. cbn. by case_decide.
    - apply fmap_Some in Hc as ([i c'] & Hfind & ->). rewrite Hfind.
      cbn [snd] in *. rewrite get_col_rename by done.
      split; [done|]. split; [done|]. split; [done|].
      cbn [rename columns]. apply list_elem_of_fmap. exists c'.
      by rewrite decide_True. }
  rewrite decide_True by done. rewrite Hnew. cbn [mbind result_bind].
  destruct (get_col_set_col (normalize_docente parsed) "Docente"
              ((λ v, Val (Py.strip (astype_str v))) <$> old) Hin)
    as [Hget Hcols'].
  { rewrite length_fmap.
    unfold get_col in Hnew.
    destruct (col_index "Docente" (columns (normalize_docente parsed)));
      [|done].
    injection Hnew as <-. by rewrite length_fmap. }
  eexists _, old. split; [done|]. split; [done|]. split; [done|].
  by rewrite Hcols'.
Qed.

Lemma load_df_missing (parsed : DataFrame) :
  teacher_column parsed = None → load_df parsed = Raise MissingColumnError.
Proof.
  intros Hc. unfold load_df, normalize_docente.
  unfold teacher_column in Hc. case_decide as Hd; [done|].
  apply fmap_None in Hc. rewrite Hc. by rewrite decide_False.
Qed.

(** C7 (the claim fails). A frame whose teacher column is named
    [" docente "] has no column named "Docente" and no column whose name
    is "Docente" up to the case of its letters; it is loaded all the same. *)
Definition case_insensitive_match (c : string) : Prop :=
  Py.lower c = Py.lower "Docente".

Definition frame_padded : DataFrame :=
  mkDataFrame [" docente "; "1A"] [[Val " Rossi "; Val "x"]].

Lemma padded_teacher_column_loads :
  (∀ c, c ∈ columns frame_padded →
        c ≠ "Docente" ∧ ¬ case_insensitive_match c)
  ∧ load_df frame_padded
    = Ok (mkDataFrame ["Docente"; "1A"] [[Val "Rossi"; Val "x"]]).
Proof.
  split; [|vm_compute; reflexivity].
  intros c Hc. cbn in Hc. unfold case_insensitive_match.
  apply elem_of_cons in Hc as [->|Hc];
    [|apply list_elem_of_singleton in Hc as ->];
    split; intros H; vm_compute in H; discriminate.
Qed.

(** C7 (amended). [load_df] fails, with the error of the missing column,
    iff no column is named "Docente" and no column name is "docente" once
    its surrounding whitespace is removed and its letters are put in lower
    case; it fails in no other way; and when there is such a column,
    loading succeeds and the teacher column of the loaded frame holds the
    values of that column with their surrounding whitespace removed. *)
Theorem load_df_missing_column (parsed : DataFrame) :
  (load_df parsed = Raise MissingColumnError ↔
   ¬ ∃ c, c ∈ columns parsed ∧ locates c)
  ∧ (∀ e, load_df parsed = Raise e → e = MissingColumnError)
  ∧ ((∃ c, c ∈ columns parsed ∧ locates c) →
     ∃ c df old,
       c ∈ columns parsed ∧ locates c
       ∧ load_df parsed = Ok df
       ∧ get_col parsed c = Ok old
       ∧ get_col df "Docente"
         = Ok ((λ v, Val (Py.strip (astype_str v))) <$> old)).
Proof.
  destruct (teacher_column parsed) as [c|] eqn:Hc.
  - destruct (load_df_located parsed c Hc) as (df & old & Hdf & Hold & Hnew & _).
    destruct (teacher_column_Some parsed c Hc) as [Hin Hloc].
    split; [|split].
    + rewrite Hdf. split; [done|]. intros Hno. destruct Hno. by exists c.
    + intros e. by rewrite Hdf.
    + intros _. by exists c, df, old.
  - pose proof (load_df_missing parsed Hc) as Hraise.
    apply teacher_column_None in Hc.
    split; [|split].
    + by rewrite Hraise.
    + intros e. rewrite Hraise. by intros [= <-].
    + intros Hex. by destruct Hc.
Qed.

Lemma load_df_missing_column_witness :
  ∃ c df old,
    c ∈ columns frame_padded ∧ locates c
    ∧ load_df frame_padded = Ok df
    ∧ get_col frame_padded c = Ok old
    ∧ get_col df "Docente"
      = Ok ((λ v, Val (Py.strip (astype_str v))) <$> old).
Proof.
  apply (proj2 (proj2 (load_df_missing_column frame_padded))).
  exists " docente ". split; [by left|]. right. vm_compute. reflexivity.
Defined.

Example load_df_no_teacher_column :
  load_df (mkDataFrame ["Nome"; "1A"] [[Val "Rossi"; Val "x"]])
  = Raise MissingColumnError.
Proof. vm_compute. reflexivity. Qed.

Lemma load_df_Ok_docente (parsed df : DataFrame) :
  load_df parsed = Ok df → "Docente" ∈ columns df.
Proof.
  intros Hdf. destruct (teacher_column parsed) as [c|] eqn:Hc.
  - destruct (load_df_located parsed c Hc) as (df' & old & Hdf' & _ & Hnew & _).
    rewrite Hdf in Hdf'. injection Hdf' as <-.
    apply col_index_is_Some. unfold get_col in Hnew.
    destruct (col_index "Docente" (columns df)); [done|discriminate].
  - rewrite (load_df_missing parsed Hc) in Hdf. discriminate.
Qed.

(** ** The main flow *)

Lemma map_result_fmap {A B} (f : A → result B) (h : A → B) (l : list A) :
  (∀ x, x ∈ l → f x = Ok (h x)) → map_result f l = Ok (h <$> l).
Proof.
  induction l as [|x l IH]; intros Hf; [done|].
  cbn [map_result]. rewrite Hf by (by left). cbn [mbind result_bind].
  rewrite IH; [done|]. intros x' Hx'. apply Hf. by right.
Qed.

Lemma validate_rows_Ok (tables : list Table)
    (class_to_teachers : gmap string (gset string)) :
  (∀ t y, t ∈ tables → y ∈ index (tab t) →
     ∃ names, map_result (loc (tab t) y) (letters_of_group t) = Ok names
              ∧ known_classes class_to_teachers names) →
  ∃ records, validate_rows tables class_to_teachers = Ok records.
Proof.
  intros Hwf. unfold validate_rows.
  destruct (map_result_Ok (validate_table class_to_teachers)
              (λ _ _, True) tables) as (rows & -> & _); [|by eexists].
  intros t Ht. unfold validate_table.
  destruct (map_result_Ok
    (λ y, names ← map_result (loc (tab t) y) (letters_of_group t);
          ok ← row_ok class_to_teachers names;
          Ok (mkValidation (gi t) y ok))
    (λ _ _, True) (index (tab t))) as (recs & -> & _); [|by eexists].
  intros y Hy. destruct (Hwf t y Ht Hy) as (names & Hnames & Hk).
  destruct (row_ok_spec class_to_teachers names Hk) as (b & Hb & _).
  cbv beta. rewrite Hnames. cbn [mbind result_bind]. rewrite Hb.
  by eexists.
Qed.

(** On the output of the registry the later stages do not raise. *)
Lemma organize_Ok (df : DataFrame) valid ctt ylc complete :
  build_class_teacher_map df = Ok (valid, ctt, ylc, complete) →
  ∃ tables validation,
    organize complete ctt ylc = Ok (tables, validation)
    ∧ (complete ≠ [] → tables ≠ []).
Proof.
  intros Hmap.
  destruct (registry_complete_letters df valid ctt ylc complete Hmap)
    as (Hnd & Hs & Hys).
  destruct (letters_conflict_graph_spec ctt ylc complete Hys)
    as (conflicts & Hc & Hkeys & _).
  destruct (greedy_group_letters_run complete conflicts 4)
    as (groups & Hg & Hrun).
  { intros L HL. by apply Hkeys. }
  assert (concat groups ≡ₚ complete) as Hperm.
  { rewrite (first_fit_run_Permutation _ _ _ _ _ Hrun). cbn [concat].
    by rewrite app_nil_r, letters_sorted_Permutation. }
  destruct (validate_rows_Ok (build_tables groups ylc) ctt)
    as (validation & Hv).
  { intros t y Ht Hy.
    destruct (build_tables_cell groups ylc t Ht) as (Hgt & _ & Hcell).
    exists ((λ L, default "" (ylc !! (y, L))) <$> letters_of_group t).
    split.
    - apply map_result_fmap. intros L HL. by apply Hcell.
    - unfold known_classes. apply Forall_fmap, Forall_forall.
      intros L HL _. destruct (Hcell y L Hy HL) as [Hy' _].
      destruct (registry_class_of df valid ctt ylc complete y L Hmap)
        as (c & -> & _ & _ & Hkey); [|done..].
      rewrite <-Hperm. apply elem_of_concat. by eexists. }
  exists (build_tables groups ylc), validation. unfold organize.
  rewrite Hc. cbn [mbind result_bind]. rewrite Hg. cbn [mbind result_bind].
  rewrite Hv. split; [done|]. intros Hne Htab.
  apply (f_equal length) in Htab. unfold build_tables in Htab.
  rewrite length_imap in Htab. destruct groups; [|done].
  cbn in Hperm. apply Permutation_nil_l in Hperm. done.
Qed.

(** Some class column of the frame is the class of letter [L] in each of
    the years 1..5. *)
Definition complete_in (df : DataFrame) (L : string) : Prop :=
  ∀ y, 1 ≤ y ≤ 5 → ∃ c, c ∈ columns df ∧ parse_class c = Some (y, L).

Lemma elem_of_registry_complete (df : DataFrame) (L : string) :
  L ∈ complete_letters_of (build_year_letter_to_class (valid_cols df))
  ↔ complete_in df L.
Proof.
  rewrite elem_of_complete_letters_of. unfold complete_in.
  split; intros HL y Hy; specialize (HL y Hy).
  - apply year_letter_to_class_is_Some in HL as (c & Hc & Hp).
    apply elem_of_valid_cols in Hc as [Hc _]. by exists c.
  - destruct HL as (c & Hc & Hp). apply year_letter_to_class_is_Some.
    exists c. split; [|done]. apply elem_of_valid_cols. split; [done|].
    by eexists.
Qed.

(** A frame in which the letter A lacks its fifth class. *)
Definition frame_incomplete : DataFrame :=
  mkDataFrame ["Docente"; "1A"; "2A"; "3A"; "4A"; "6A"]
    [[Val "Rossi"; Val "x"; Val "x"; Val "x"; Val "x"; Val "x"]].

(** C6 (the claim fails). In [frame_incomplete] no letter has its five
    classes, and [build_class_teacher_map] raises nothing: it returns its
    four results, the list of complete letters being empty. *)
Lemma registry_builder_returns_empty_list :
  (¬ ∃ L, complete_in frame_incomplete L)
  ∧ ∃ valid ctt ylc,
      build_class_teacher_map frame_incomplete = Ok (valid, ctt, ylc, []).
Proof.
  split.
  - intros [L HL]. apply elem_of_registry_complete in HL.
    assert (complete_letters_of
              (build_year_letter_to_class (valid_cols frame_incomplete)) = [])
      as Hnone by (vm_compute; reflexivity).
    rewrite Hnone in HL. by apply elem_of_nil in HL.
  - eexists _, _, _. vm_compute. reflexivity.
Qed.

(** C6 (amended). On a loaded frame in which no letter has its five
    classes, [build_class_teacher_map] raises nothing and returns an empty
    list of complete letters; it is its caller, the main flow, that shows
    the message of the missing complete letters and stops, without tables.
    On a loaded frame with a complete letter the main flow shows tables. *)
Theorem no_complete_letter_stops (uploaded df : DataFrame) :
  load_df uploaded = Ok df →
  ((¬ ∃ L, complete_in df L) →
   (∃ valid ctt ylc, build_class_teacher_map df = Ok (valid, ctt, ylc, []))
   ∧ main uploaded = Stopped no_complete_letters_message)
  ∧ ((∃ L, complete_in df L) →
     ∃ tables validation,
       main uploaded = Shown tables validation ∧ tables ≠ []).
Proof.
  intros Hload. unfold main. rewrite Hload.
  destruct (build_class_teacher_map_Ok df (load_df_Ok_docente _ _ Hload))
    as (ctt & Hmap & _).
  rewrite Hmap.
  destruct (organize_Ok df _ _ _ _ Hmap) as (tables & validation & Horg & Hne).
  destruct (complete_letters_of (build_year_letter_to_class (valid_cols df)))
    as [|L complete] eqn:Hcomplete.
  - split.
    + intros _. split; [|done]. by eexists _, _, _.
    + intros [L HL]. apply elem_of_registry_complete in HL.
      rewrite Hcomplete in HL. by apply elem_of_nil in HL.
  - split.
    + intros Hno. destruct Hno. exists L. apply elem_of_registry_complete.
      rewrite Hcomplete. by left.
    + intros _. rewrite Horg. exists tables, validation.
      split; [done|]. by apply Hne.
Qed.

Lemma no_complete_letter_stops_witness :
  ((¬ ∃ L, complete_in frame_incomplete L) →
   (∃ valid ctt ylc,
      build_class_teacher_map frame_incomplete = Ok (valid, ctt, ylc, []))
   ∧ main frame_incomplete = Stopped no_complete_letters_message)
  ∧ ((∃ L, complete_in frame_incomplete L) →
     ∃ tables validation,
       main frame_incomplete = Shown tables validation ∧ tables ≠ []).
Proof.
  apply (no_complete_letter_stops frame_incomplete frame_incomplete).
  vm_compute. reflexivity.
Defined.

Example frame_incomplete_stops :
  main frame_incomplete = Stopped no_complete_letters_message.
Proof. vm_compute. reflexivity. Qed.

Example frame_D_shown :
  ∃ validation,
    main frame_D
    = Shown [mkTable 1 ["A"]
               [(1, {["A" := "1A"]}); (2, {["A" := "2A"]});
                (3, {["A" := "3A"]}); (4, {["A" := "4A"]});
                (5, {["A" := "5A"]})]]
            validation
    ∧ validation = (λ y, mkValidation 1 y true) <$> [1; 2; 3; 4; 5].
Proof. eexists. split; vm_compute; reflexivity. Qed.

(** ** Runs of the pipeline *)

Example strip_examples :
  Py.strip "  1A " = "1A" ∧ Py.strip "" = "" ∧ Py.strip "a b" = "a b"
  ∧ Py.lower (Py.strip " DoCente") = "docente".
Proof. vm_compute. done. Qed.

(** The letters A and B have their five classes and no teacher in common:
    one table with both letters, every row valid. *)
Definition frame_A : DataFrame :=
  mkDataFrame
    ["Docente"; "1A"; "2A"; "3A"; "4A"; "5A"; "1B"; "2B"; "3B"; "4B"; "5B"]
    [[Val "Rossi"; Val "x"; Val "x"; Val "x"; Val "x"; Val "x";
      NaN; NaN; NaN; NaN; NaN];
     [Val "Bianchi"; NaN; NaN; NaN; NaN; NaN;
      Val "x"; Val "x"; Val "x"; Val "x"; Val "x"]].

Example frame_A_shown :
  ∃ tables,
    main frame_A
    = Shown tables ((λ y, mkValidation 1 y true) <$> [1; 2; 3; 4; 5])
    ∧ (λ t, (gi t, letters_of_group t)) <$> tables = [(1, ["A"; "B"])].
Proof. eexists. split; vm_compute; reflexivity. Qed.

(** As [frame_A], but Rossi also teaches the class 3B: the two letters
    conflict and get a table each. *)
Definition frame_B : DataFrame :=
  mkDataFrame
    ["Docente"; "1A"; "2A"; "3A"; "4A"; "5A"; "1B"; "2B"; "3B"; "4B"; "5B"]
    [[Val "Rossi"; Val "x"; Val "x"; Val "x"; Val "x"; Val "x";
      NaN; NaN; Val "x"; NaN; NaN];
     [Val "Bianchi"; NaN; NaN; NaN; NaN; NaN;
      Val "x"; Val "x"; Val "x"; Val "x"; Val "x"]].

Example frame_B_shown :
  ∃ tables validation,
    main frame_B = Shown tables validation
    ∧ (λ t, (gi t, letters_of_group t)) <$> tables
      = [(1, ["A"]); (2, ["B"])]
    ∧ Forall (λ r, valida r = true) validation.
Proof.
  eexists _, _. split; [vm_compute; reflexivity|].
  split; [reflexivity|]. repeat constructor.
Qed.

(** The grouper outside the inputs of the theorems above. *)

(** With a maximal size below 1 no group has room: every letter gets a
    group of its own. *)
Example greedy_size_zero :
  greedy_group_letters ["A"; "B"] {["A" := ∅; "B" := ∅]} 0
  = Ok [["A"]; ["B"]].
Proof. vm_compute. reflexivity. Qed.

(** A letter that is not a key of the conflict mapping. *)
Example greedy_missing_key :
  greedy_group_letters ["A"; "B"] {["A" := ∅]} 4 = Raise KeyError.
Proof. vm_compute. reflexivity. Qed.

(** A letter listed twice is paired with itself. *)
Example conflict_graph_repeated_letter :
  letters_conflict_graph ["A"; "A"] Scenario.class_to_teachers
                         Scenario.year_letter_to_class
  = Ok {["A" := {["A"]}]}.
Proof. vm_compute. reflexivity. Qed.

(** * Further properties of the code *)

(** ** Groups without conflicts *)

Section compatible_groups.
Variable conflicts : gmap string (gset string).
Variable max_group_size : Z.

(** No letter of the group is in the conflict set of a letter placed in
    the group before it. *)
Definition compatible (g : list string) : Prop :=
  ∀ i j a b, (i < j)%nat → g !! i = Some a → g !! j = Some b →
             ¬ in_conflicts conflicts a b.

Lemma compatible_snoc (L : string) (g : list string) :
  compatible g → fits_group conflicts max_group_size L g →
  compatible (g ++ [L])%list.
Proof.
  intros Hg [_ Hfit] i j a b Hij Hi Hj (s & Hs & Hb).
  apply lookup_snoc_Some in Hj as [[Hlt Hj]|[-> <-]].
  - apply lookup_snoc_Some in Hi as [[_ Hi]|[-> _]]; [|lia].
    apply (Hg i j a b Hij Hi Hj). by exists s.
  - apply lookup_snoc_Some in Hi as [[_ Hi]|[? _]]; [|lia].
    apply (Hfit a s); [|done..]. by eapply list_elem_of_lookup_2.
Qed.

Lemma first_fit_compatible (L : string) (groups groups' : list (list string)) :
  first_fit conflicts max_group_size L groups groups' →
  Forall compatible groups → Forall compatible groups'.
Proof.
  intros [(i & g & Hi & Hfit & _ & ->)|[_ ->]] Hall.
  - apply Forall_insert; [done|]. apply compatible_snoc; [|done].
    rewrite Forall_forall in Hall. apply Hall.
    by eapply list_elem_of_lookup_2.
  - apply Forall_app. split; [done|]. constructor; [|done].
    intros i j a b Hij Hi Hj. destruct i, j; try lia; done.
Qed.

Lemma first_fit_run_compatible (ls : list string)
    (groups groups' : list (list string)) :
  first_fit_run conflicts max_group_size ls groups groups' →
  Forall compatible groups → Forall compatible groups'.
Proof. induction 1; eauto using first_fit_compatible. Qed.

End compatible_groups.

(** X1. The grouper never puts a letter into a group that holds a letter
    whose conflict set contains it, whatever the maximal size: in every
    returned group no letter is in the conflict set of an earlier member,
    and for a symmetric mapping no two members conflict. *)
Theorem greedy_conflict_free (letters : list string)
    (conflicts : gmap string (gset string)) (max_group_size : Z) :
  (∀ L, L ∈ letters → is_Some (conflicts !! L)) →
  ∃ groups,
    greedy_group_letters letters conflicts max_group_size = Ok groups
    ∧ (∀ g i j a b, g ∈ groups → (i < j)%nat →
         g !! i = Some a → g !! j = Some b → ¬ in_conflicts conflicts a b)
    ∧ ((∀ a b, in_conflicts conflicts a b → in_conflicts conflicts b a) →
       ∀ g a b, g ∈ groups → a ∈ g → b ∈ g → a ≠ b →
                ¬ in_conflicts conflicts a b).
Proof.
  intros Hk.
  destruct (greedy_group_letters_run letters conflicts max_group_size Hk)
    as (groups & Hg & Hrun).
  apply first_fit_run_compatible in Hrun; [|constructor].
  rewrite Forall_forall in Hrun.
  exists groups. split; [done|]. split.
  - intros g i j a b Hin. by apply (Hrun g Hin).
  - intros Hsym g a b Hin Ha Hb Hne Hab.
    apply list_elem_of_lookup in Ha as [i Hi].
    apply list_elem_of_lookup in Hb as [j Hj].
    destruct (Nat.lt_trichotomy i j) as [Hlt|[->|Hlt]].
    + by apply (Hrun g Hin i j a b).
    + congruence.
    + apply (Hrun g Hin j i b a); [done..|]. by apply Hsym.
Qed.

Lemma greedy_conflict_free_witness :
  ∃ groups,
    greedy_group_letters Scenario.letters ScenarioConflicts.conflicts 4
    = Ok groups
    ∧ (∀ g i j a b, g ∈ groups → (i < j)%nat →
         g !! i = Some a → g !! j = Some b →
         ¬ in_conflicts ScenarioConflicts.conflicts a b)
    ∧ ((∀ a b, in_conflicts ScenarioConflicts.conflicts a b →
               in_conflicts ScenarioConflicts.conflicts b a) →
       ∀ g a b, g ∈ groups → a ∈ g → b ∈ g → a ≠ b →
                ¬ in_conflicts ScenarioConflicts.conflicts a b).
Proof.
  apply (greedy_conflict_free Scenario.letters ScenarioConflicts.conflicts 4).
  exact ScenarioConflicts.keys.
Defined.

(** ** Letters without conflicts *)

Lemma sort_desc_same_key {A} (k : Z) (l : list (Z * A)) :
  Forall (λ p, p.1 = k) l → sort_desc l = l.
Proof.
  induction 1 as [|kx l Hk Hl IH]; [done|].
  cbn. fold (sort_desc l). rewrite IH. destruct Hl as [|ky l' Hky _].
  - done.
  - cbn [insert_desc]. rewrite decide_True; [done|]. lia.
Qed.

Section filling.
Variable conflicts : gmap string (gset string).
Variable max_group_size : Z.
Hypothesis max_pos : 1 ≤ max_group_size.

(** The groups hold letters without conflicts, have between 1 and
    [max_group_size] letters, and all but the last are full. *)
Definition filled (groups : list (list string)) : Prop :=
  Forall (Forall (λ L, conflicts !! L = Some ∅)) groups
  ∧ Forall (λ g, 1 ≤ Z.of_nat (length g) ≤ max_group_size) groups
  ∧ ∀ i g, groups !! i = Some g → (S i < length groups)%nat →
           Z.of_nat (length g) = max_group_size.

Lemma fits_group_room (L : string) (g : list string) :
  Forall (λ L, conflicts !! L = Some ∅) g →
  fits_group conflicts max_group_size L g
  ↔ Z.of_nat (length g) < max_group_size.
Proof.
  intros Hg. unfold fits_group. split; [tauto|]. intros Hlen.
  split; [done|]. intros other s Ho Hs. rewrite Forall_forall in Hg.
  rewrite (Hg other Ho) in Hs. injection Hs as <-. set_solver.
Qed.

Lemma first_fit_filled (L : string) (groups groups' : list (list string)) :
  conflicts !! L = Some ∅ → filled groups →
  first_fit conflicts max_group_size L groups groups' →
  filled groups' ∧ concat groups' = (concat groups ++ [L])%list.
Proof.
  intros HL (Hempty & Hsize & Hfull) Hff.
  rewrite Forall_forall in Hempty, Hsize.
  destruct Hff as [(i & g & Hi & Hfit & _ & ->)|[Hnone ->]].
  - pose proof (list_elem_of_lookup_2 _ _ _ Hi) as Hgin.
    apply fits_group_room in Hfit; [|by apply Hempty].
    apply list_elem_of_split_length in Hi as Hsplit.
    destruct Hsplit as (l1 & l2 & Hgroups & Hlen).
    assert (l2 = []) as ->.
    { destruct l2 as [|g2 l2]; [done|]. exfalso.
      assert (Z.of_nat (length g) = max_group_size); [|lia].
      apply (Hfull i g Hi). rewrite Hgroups, length_app. cbn. lia. }
    subst groups i.
    rewrite insert_app_r_alt by lia. rewrite Nat.sub_diag. cbn [insert].
    cbn [list_insert]. split; [split; [|split]|].
    + apply Forall_app. split.
      * apply Forall_forall. intros g' Hg'. apply Hempty.
        apply elem_of_app. by left.
      * constructor; [|done]. apply Forall_app. split; [|by constructor].
        by apply Hempty.
    + apply Forall_app. split.
      * apply Forall_forall. intros g' Hg'. apply Hsize.
        apply elem_of_app. by left.
      * constructor; [|done]. rewrite length_app. cbn.
        specialize (Hsize g Hgin). lia.
    + intros k g' Hk Hlt. rewrite length_app in Hlt. cbn in Hlt.
      rewrite lookup_app_l in Hk by lia.
      apply (Hfull k g').
      * rewrite lookup_app_l; [done|]. by eapply lookup_lt_Some.
      * rewrite length_app. cbn. lia.
    + rewrite !concat_app. cbn [concat]. rewrite !app_nil_r.
      by rewrite !(assoc_L (++)).
  - split; [split; [|split]|].
    + apply Forall_app. split; [by apply Forall_forall|].
      by repeat constructor.
    + apply Forall_app. split; [by apply Forall_forall|].
      constructor; [|done]. cbn. lia.
    + intros k g' Hk Hlt. rewrite length_app in Hlt. cbn in Hlt.
      rewrite lookup_app_l in Hk by lia.
      pose proof (list_elem_of_lookup_2 _ _ _ Hk) as Hin.
      specialize (Hsize g' Hin).
      assert (¬ Z.of_nat (length g') < max_group_size); [|lia].
      intros Hroom. apply (Hnone g' Hin).
      apply fits_group_room; [by apply Hempty|done].
    + rewrite concat_app. cbn [concat]. by rewrite app_nil_r.
Qed.

Lemma first_fit_run_filled (ls : list string)
    (groups groups' : list (list string)) :
  Forall (λ L, conflicts !! L = Some ∅) ls → filled groups →
  first_fit_run conflicts max_group_size ls groups groups' →
  filled groups' ∧ concat groups' = (concat groups ++ ls)%list.
Proof.
  intros Hls Hfilled Hrun. revert Hls Hfilled.
  induction Hrun as [|L ls groups groups' groups'' Hff _ IH];
    intros Hls Hfilled.
  - by rewrite app_nil_r.
  - apply Forall_cons in Hls as [HL Hls].
    destruct (first_fit_filled L groups groups' HL Hfilled Hff) as [Hf' Hc'].
    destruct (IH Hls Hf') as [Hf'' Hc''].
    split; [done|]. rewrite Hc'', Hc', <-(assoc_L (++)). done.
Qed.

End filling.

(** X2. When no letter has a conflict, the grouper keeps the letters in
    their order and cuts them into consecutive groups: every group but
    the last has exactly [max_group_size] letters. *)
Theorem greedy_without_conflicts (letters : list string)
    (conflicts : gmap string (gset string)) (max_group_size : Z) :
  (∀ L, L ∈ letters → conflicts !! L = Some ∅) →
  1 ≤ max_group_size →
  ∃ groups,
    greedy_group_letters letters conflicts max_group_size = Ok groups
    ∧ concat groups = letters
    ∧ Forall (λ g, 1 ≤ Z.of_nat (length g) ≤ max_group_size) groups
    ∧ ∀ i g, groups !! i = Some g → (S i < length groups)%nat →
             Z.of_nat (length g) = max_group_size.
Proof.
  intros Hempty Hmax.
  destruct (greedy_group_letters_run letters conflicts max_group_size)
    as (groups & Hg & Hrun).
  { intros L HL. rewrite (Hempty L HL). by eexists. }
  rewrite (sort_desc_same_key 0), decorate_snd in Hrun.
  2:{ unfold decorate. apply Forall_fmap, Forall_forall. intros L HL.
      cbn. unfold degree_of. by rewrite (Hempty L HL). }
  destruct (first_fit_run_filled conflicts max_group_size Hmax
              letters [] groups) as ((_ & Hsize & Hfull) & Hconcat).
  - by apply Forall_forall.
  - split; [constructor|]. split; [constructor|].
    intros i g Hi. by rewrite lookup_nil in Hi.
  - done.
  - exists groups. done.
Qed.

Lemma greedy_without_conflicts_witness :
  ∃ groups,
    greedy_group_letters ["A"; "B"; "C"]
      {["A" := ∅; "B" := ∅; "C" := ∅]} 2 = Ok groups
    ∧ concat groups = ["A"; "B"; "C"]
    ∧ Forall (λ g, 1 ≤ Z.of_nat (length g) ≤ 2) groups
    ∧ ∀ i g, groups !! i = Some g → (S i < length groups)%nat →
             Z.of_nat (length g) = 2.
Proof.
  apply (greedy_without_conflicts ["A"; "B"; "C"]
           {["A" := ∅; "B" := ∅; "C" := ∅]} 2).
  - apply Forall_forall. apply (bool_decide_unpack _). vm_compute. exact I.
  - lia.
Defined.

(** ** The stages together *)

Lemma organize_inv (complete : list string)
    (ctt : gmap string (gset string)) (ylc : gmap (Z * string) string)
    (tables : list Table) (validation : list Validation) :
  organize complete ctt ylc = Ok (tables, validation) →
  ∃ conflicts groups,
    letters_conflict_graph complete ctt ylc = Ok conflicts
    ∧ greedy_group_letters complete conflicts 4 = Ok groups
    ∧ tables = build_tables groups ylc
    ∧ validate_rows tables ctt = Ok validation.
Proof.
  unfold organize. intros H.
  apply bind_Ok in H as (conflicts & Hc & H).
  apply bind_Ok in H as (groups & Hg & H).
  apply bind_Ok in H as (validation' & Hv & [= <- <-]).
  by exists conflicts, groups.
Qed.

Lemma conflict_graph_distinct (letters : list string)
    (ctt : gmap string (gset string)) (ylc : gmap (Z * string) string)
    (conflicts : gmap string (gset string)) :
  Forall (has_all_years ctt ylc) letters →
  letters_conflict_graph letters ctt ylc = Ok conflicts →
  (∀ L, L ∈ letters → is_Some (conflicts !! L))
  ∧ ∀ a b, a ∈ letters → b ∈ letters → a ≠ b →
           conflict ctt ylc a b → in_conflicts conflicts a b.
Proof.
  intros Hys Hc.
  destruct (letters_conflict_graph_spec ctt ylc letters Hys)
    as (c & Hc' & Hkeys & Hin).
  rewrite Hc in Hc'. injection Hc' as <-.
  split; [intros L HL; by apply Hkeys|].
  intros a b Ha Hb Hne Hconf. apply Hin.
  destruct (combinations2_distinct letters a b Ha Hb Hne) as [Hp|Hp].
  - exists a, b. split; [done|]. split; [done|]. by left.
  - exists b, a. split; [done|]. split; [by apply conflict_sym|]. by right.
Qed.

Lemma Forall2_ignore_r {A B} (P : A → Prop) (l : list A) (k : list B) :
  Forall2 (λ x _, P x) l k → Forall P l.
Proof. induction 1; by constructor. Qed.

Lemma validate_rows_all_valid (tables : list Table)
    (ctt : gmap string (gset string)) :
  (∀ t y, t ∈ tables → y ∈ index (tab t) →
     ∃ names, map_result (loc (tab t) y) (letters_of_group t) = Ok names
              ∧ known_classes ctt names ∧ row_valid ctt names) →
  ∃ records, validate_rows tables ctt = Ok records
             ∧ Forall (λ r, valida r = true) records.
Proof.
  intros Hwf. unfold validate_rows.
  destruct (map_result_Ok (validate_table ctt)
              (λ recs _, Forall (λ r, valida r = true) recs) tables)
    as (rows & -> & HF).
  - intros t Ht. unfold validate_table.
    destruct (map_result_Ok
      (λ y, names ← map_result (loc (tab t) y) (letters_of_group t);
            ok ← row_ok ctt names;
            Ok (mkValidation (gi t) y ok))
      (λ r _, valida r = true) (index (tab t))) as (recs & -> & HFt).
    + intros y Hy. destruct (Hwf t y Ht Hy) as (names & Hnames & Hk & Hv).
      destruct (row_ok_spec ctt names Hk) as (b & Hb & Hiff).
      cbv beta. rewrite Hnames. cbn [mbind result_bind]. rewrite Hb.
      eexists. split; [done|]. cbn. by apply Hiff.
    + eexists. split; [done|]. by eapply Forall2_ignore_r.
  - eexists. split; [done|]. apply Forall_concat.
    by eapply Forall2_ignore_r.
Qed.

Lemma NoDup_concat_elem {A} (groups : list (list A)) (g : list A) :
  NoDup (concat groups) → g ∈ groups → NoDup g.
Proof.
  induction groups as [|g0 groups IH]; cbn [concat]; intros Hnd Hg.
  - by apply elem_of_nil in Hg.
  - apply NoDup_app in Hnd as (Hg0 & _ & Hnd).
    apply elem_of_cons in Hg as [->|Hg]; auto.
Qed.

(** The tables of the pipeline have rows without a shared teacher. *)
Lemma pipeline_rows_valid (df : DataFrame) valid ctt ylc complete
    (conflicts : gmap string (gset string)) (groups : list (list string))
    (t : Table) (y : Z) :
  build_class_teacher_map df = Ok (valid, ctt, ylc, complete) →
  letters_conflict_graph complete ctt ylc = Ok conflicts →
  greedy_group_letters complete conflicts 4 = Ok groups →
  t ∈ build_tables groups ylc → y ∈ index (tab t) →
  ∃ names, map_result (loc (tab t) y) (letters_of_group t) = Ok names
           ∧ known_classes ctt names ∧ row_valid ctt names.
Proof.
  intros Hmap Hc Hg Ht Hy.
  destruct (registry_complete_letters df valid ctt ylc complete Hmap)
    as (Hnd & _ & Hys).
  destruct (conflict_graph_distinct complete ctt ylc conflicts Hys Hc)
    as [Hkeys Hdistinct].
  destruct (greedy_group_letters_run complete conflicts 4 Hkeys)
    as (groups' & Hg' & Hrun).
  rewrite Hg in Hg'. injection Hg' as <-.
  assert (concat groups ≡ₚ complete) as Hperm.
  { rewrite (first_fit_run_Permutation _ _ _ _ _ Hrun). cbn [concat].
    by rewrite app_nil_r, letters_sorted_Permutation. }
  apply first_fit_run_compatible in Hrun; [|constructor].
  rewrite Forall_forall in Hrun.
  destruct (build_tables_cell groups ylc t Ht) as (Hgt & _ & Hcell).
  assert (∀ L, L ∈ letters_of_group t → L ∈ complete) as Hin.
  { intros L HL. rewrite <-Hperm. apply elem_of_concat. by eexists. }
  assert (NoDup (letters_of_group t)) as Hndg.
  { apply (NoDup_concat_elem groups); [by rewrite Hperm|done]. }
  exists ((λ L, default "" (ylc !! (y, L))) <$> letters_of_group t).
  assert (∀ L, L ∈ letters_of_group t → 1 ≤ y ≤ 5) as Hyear.
  { intros L HL. by destruct (Hcell y L Hy HL). }
  split; [|split].
  - apply map_result_fmap. intros L HL. by apply Hcell.
  - unfold known_classes. apply Forall_fmap, Forall_forall.
    intros L HL _.
    destruct (registry_class_of df valid ctt ylc complete y L Hmap)
      as (c & -> & _ & _ & Hkey); eauto.
  - intros i j c1 c2 t1 t2 Hij Hi Hj _ _ H1 H2.
    apply list_lookup_fmap_Some in Hi as (La & -> & Hi).
    apply list_lookup_fmap_Some in Hj as (Lb & -> & Hj).
    pose proof (list_elem_of_lookup_2 _ _ _ Hi) as Ha.
    pose proof (list_elem_of_lookup_2 _ _ _ Hj) as Hb.
    destruct (registry_class_of df valid ctt ylc complete y La Hmap)
      as (ca & Hca & _); eauto.
    destruct (registry_class_of df valid ctt ylc complete y Lb Hmap)
      as (cb & Hcb & _); eauto.
    rewrite Hca in H1. rewrite Hcb in H2. cbn in H1, H2.
    destruct (decide (t1 ∩ t2 = ∅)) as [|Hne]; [done|]. exfalso.
    apply (Hrun _ Hgt i j La Lb Hij Hi Hj).
    apply Hdistinct; eauto.
    + intros ->. pose proof (NoDup_lookup _ _ _ _ Hndg Hi Hj). lia.
    + exists y, t1, t2. unfold teacher_set. rewrite Hca, Hcb. cbn.
      split; [eauto|done].
Qed.

Lemma pipeline_cells_disjoint (df : DataFrame) valid ctt ylc complete
    (conflicts : gmap string (gset string)) (groups : list (list string))
    (g : list string) (y : Z) (i j : nat) (L1 L2 : string) :
  build_class_teacher_map df = Ok (valid, ctt, ylc, complete) →
  letters_conflict_graph complete ctt ylc = Ok conflicts →
  greedy_group_letters complete conflicts 4 = Ok groups →
  g ∈ groups → 1 ≤ y ≤ 5 → (i < j)%nat →
  g !! i = Some L1 → g !! j = Some L2 →
  ∃ c1 c2 t1 t2,
    ylc !! (y, L1) = Some c1 ∧ ylc !! (y, L2) = Some c2
    ∧ c1 ≠ "" ∧ c2 ≠ ""
    ∧ ctt !! c1 = Some t1 ∧ ctt !! c2 = Some t2 ∧ t1 ∩ t2 = ∅.
Proof.
  intros Hmap Hc Hg Hin Hy Hij Hi Hj.
  destruct (registry_complete_letters df valid ctt ylc complete Hmap)
    as (Hnd & _ & Hys).
  destruct (conflict_graph_distinct complete ctt ylc conflicts Hys Hc)
    as [Hkeys Hdistinct].
  destruct (greedy_group_letters_run complete conflicts 4 Hkeys)
    as (groups' & Hg' & Hrun).
  rewrite Hg in Hg'. injection Hg' as <-.
  assert (concat groups ≡ₚ complete) as Hperm.
  { rewrite (first_fit_run_Permutation _ _ _ _ _ Hrun). cbn [concat].
    by rewrite app_nil_r, letters_sorted_Permutation. }
  apply first_fit_run_compatible in Hrun; [|constructor].
  rewrite Forall_forall in Hrun.
  assert (∀ L, L ∈ g → L ∈ complete) as Hcomplete.
  { intros L HL. rewrite <-Hperm. apply elem_of_concat. by exists g. }
  assert (NoDup g) as Hndg.
  { apply (NoDup_concat_elem groups); [by rewrite Hperm|done]. }
  pose proof (list_elem_of_lookup_2 _ _ _ Hi) as H1.
  pose proof (list_elem_of_lookup_2 _ _ _ Hj) as H2.
  destruct (registry_class_of df valid ctt ylc complete y L1 Hmap)
    as (c1 & Hc1 & _ & Hp1 & [t1 Ht1]); [by apply Hcomplete|done|].
  destruct (registry_class_of df valid ctt ylc complete y L2 Hmap)
    as (c2 & Hc2 & _ & Hp2 & [t2 Ht2]); [by apply Hcomplete|done|].
  exists c1, c2, t1, t2. split; [done|]. split; [done|].
  split; [by eapply parse_class_nonempty|].
  split; [by eapply parse_class_nonempty|].
  split; [done|]. split; [done|].
  destruct (decide (t1 ∩ t2 = ∅)) as [|Hne]; [done|]. exfalso.
  apply (Hrun g Hin i j L1 L2 Hij Hi Hj).
  apply Hdistinct; [by apply Hcomplete..| |].
  - intros ->. pose proof (NoDup_lookup _ _ _ _ Hndg Hi Hj). lia.
  - exists y, t1, t2. unfold teacher_set. rewrite Hc1, Hc2. cbn. done.
Qed.

Lemma build_tables_stored (groups : list (list string))
    (ylc : gmap (Z * string) string) (t : Table) (y : Z)
    (row : gmap string string) :
  t ∈ build_tables groups ylc → (y, row) ∈ tab t →
  letters_of_group t ∈ groups ∧ 1 ≤ y ≤ 5
  ∧ ∀ L, L ∈ letters_of_group t →
         row !! L = Some (default "" (ylc !! (y, L))).
Proof.
  unfold build_tables. intros (i & g & -> & Hg)%elem_of_lookup_imap.
  cbn [tab letters_of_group]. unfold build_grid.
  intros (y' & [= -> ->] & Hy)%list_elem_of_fmap.
  split; [by eapply list_elem_of_lookup_2|].
  split; [by apply elem_of_years|].
  intros L HL. rewrite build_row_lookup. by rewrite decide_True.
Qed.

(** X3. Whatever frame is uploaded, in the tables the main flow shows no
    row holds two classes with a teacher in common: any two cells of a
    stored row are classes of the registry whose teacher sets are
    disjoint, the grouper having separated the letters that share a
    teacher in some year; accordingly every record of the report is
    valid. *)
Theorem main_rows_all_valid (uploaded : DataFrame)
    (tables : list Table) (validation : list Validation) :
  main uploaded = Shown tables validation →
  ∃ df valid ctt ylc complete,
    load_df uploaded = Ok df
    ∧ build_class_teacher_map df = Ok (valid, ctt, ylc, complete)
    ∧ Forall (λ r, valida r = true) validation
    ∧ ∀ t y row i j L1 L2,
        t ∈ tables → (y, row) ∈ tab t → (i < j)%nat →
        letters_of_group t !! i = Some L1 →
        letters_of_group t !! j = Some L2 →
        ∃ c1 c2 t1 t2,
          row !! L1 = Some c1 ∧ row !! L2 = Some c2
          ∧ c1 ≠ "" ∧ c2 ≠ ""
          ∧ ctt !! c1 = Some t1 ∧ ctt !! c2 = Some t2 ∧ t1 ∩ t2 = ∅.
Proof.
  unfold main. intros H.
  destruct (load_df uploaded) as [df|e] eqn:Hload; [|done].
  destruct (build_class_teacher_map_Ok df (load_df_Ok_docente _ _ Hload))
    as (ctt & Hmap & _).
  rewrite Hmap in H.
  destruct (complete_letters_of (build_year_letter_to_class (valid_cols df)))
    as [|L complete] eqn:Hcomplete; [done|].
  rewrite <-Hcomplete in H, Hmap.
  destruct (organize _ ctt _) as [[tables' validation']|e] eqn:Horg; [|done].
  injection H as -> ->.
  apply organize_inv in Horg as (conflicts & groups & Hc & Hg & -> & Hv).
  eexists df, _, ctt, _, _. split; [done|]. split; [exact Hmap|]. split.
  - destruct (validate_rows_all_valid (build_tables groups
                (build_year_letter_to_class (valid_cols df))) ctt)
      as (records & Hrecords & Hall).
    { intros t y Ht Hy. by eapply pipeline_rows_valid. }
    rewrite Hv in Hrecords. by injection Hrecords as <-.
  - intros t y row i j L1 L2 Ht Hrow Hij Hi Hj.
    destruct (build_tables_stored _ _ t y row Ht Hrow) as (Hin & Hy & Hcells).
    destruct (pipeline_cells_disjoint df _ _ _ _ conflicts groups
                (letters_of_group t) y i j L1 L2 Hmap Hc Hg Hin Hy Hij Hi Hj)
      as (c1 & c2 & t1 & t2 & Hc1 & Hc2 & Hn1 & Hn2 & Ht1 & Ht2 & Hdis).
    exists c1, c2, t1, t2.
    rewrite (Hcells L1) by (by eapply list_elem_of_lookup_2).
    rewrite (Hcells L2) by (by eapply list_elem_of_lookup_2).
    rewrite Hc1, Hc2. done.
Qed.

(** A frame with three complete letters: Rossi teaches the classes of A
    and the class 3B, Bianchi the classes of B, Verdi those of C.  The
    letters A and B conflict; C shares the table of A. *)
Definition frame_three : DataFrame :=
  mkDataFrame
    ["Docente"; "1A"; "2A"; "3A"; "4A"; "5A"; "1B"; "2B"; "3B"; "4B"; "5B";
     "1C"; "2C"; "3C"; "4C"; "5C"]
    [[Val "Rossi"; Val "x"; Val "x"; Val "x"; Val "x"; Val "x";
      NaN; NaN; Val "x"; NaN; NaN; NaN; NaN; NaN; NaN; NaN];
     [Val "Bianchi"; NaN; NaN; NaN; NaN; NaN;
      Val "x"; Val "x"; Val "x"; Val "x"; Val "x"; NaN; NaN; NaN; NaN; NaN];
     [Val "Verdi"; NaN; NaN; NaN; NaN; NaN; NaN; NaN; NaN; NaN; NaN;
      Val "x"; Val "x"; Val "x"; Val "x"; Val "x"]].

Definition tables_three : list Table :=
  [mkTable 1 ["A"; "C"]
     [(1, {["A" := "1A"; "C" := "1C"]}); (2, {["A" := "2A"; "C" := "2C"]});
      (3, {["A" := "3A"; "C" := "3C"]}); (4, {["A" := "4A"; "C" := "4C"]});
      (5, {["A" := "5A"; "C" := "5C"]})];
   mkTable 2 ["B"]
     [(1, {["B" := "1B"]}); (2, {["B" := "2B"]}); (3, {["B" := "3B"]});
      (4, {["B" := "4B"]}); (5, {["B" := "5B"]})]].

Definition validation_three : list Validation :=
  ((λ y, mkValidation 1 y true) <$> [1; 2; 3; 4; 5])
  ++ ((λ y, mkValidation 2 y true) <$> [1; 2; 3; 4; 5]).

Lemma main_rows_all_valid_witness :
  ∃ df valid ctt ylc complete,
    load_df frame_three = Ok df
    ∧ build_class_teacher_map df = Ok (valid, ctt, ylc, complete)
    ∧ Forall (λ r, valida r = true) validation_three
    ∧ ∀ t y row i j L1 L2,
        t ∈ tables_three → (y, row) ∈ tab t → (i < j)%nat →
        letters_of_group t !! i = Some L1 →
        letters_of_group t !! j = Some L2 →
        ∃ c1 c2 t1 t2,
          row !! L1 = Some c1 ∧ row !! L2 = Some c2
          ∧ c1 ≠ "" ∧ c2 ≠ ""
          ∧ ctt !! c1 = Some t1 ∧ ctt !! c2 = Some t2 ∧ t1 ∩ t2 = ∅.
Proof.
  apply (main_rows_all_valid frame_three tables_three validation_three).
  vm_compute. reflexivity.
Defined.

(** X4. Once [load_df] has returned a frame, no later stage raises: the
    registry builder, the conflict graph builder on its complete letters,
    the grouper with groups of at most 4, and the validator on the tables
    built from the groups all return. *)
Theorem loaded_frame_stages_return (parsed df : DataFrame) :
  load_df parsed = Ok df →
  ∃ valid ctt ylc complete conflicts groups validation,
    build_class_teacher_map df = Ok (valid, ctt, ylc, complete)
    ∧ letters_conflict_graph complete ctt ylc = Ok conflicts
    ∧ greedy_group_letters complete conflicts 4 = Ok groups
    ∧ validate_rows (build_tables groups ylc) ctt = Ok validation.
Proof.
  intros Hload.
  destruct (build_class_teacher_map_Ok df (load_df_Ok_docente _ _ Hload))
    as (ctt & Hmap & _).
  destruct (organize_Ok df _ _ _ _ Hmap) as (tables & validation & Horg & _).
  apply organize_inv in Horg as (conflicts & groups & Hc & Hg & -> & Hv).
  by eexists _, ctt, _, _, conflicts, groups, validation.
Qed.

Lemma loaded_frame_stages_return_witness :
  ∃ valid ctt ylc complete conflicts groups validation,
    build_class_teacher_map frame_three = Ok (valid, ctt, ylc, complete)
    ∧ letters_conflict_graph complete ctt ylc = Ok conflicts
    ∧ greedy_group_letters complete conflicts 4 = Ok groups
    ∧ validate_rows (build_tables groups ylc) ctt = Ok validation.
Proof.
  apply (loaded_frame_stages_return frame_three frame_three).
  vm_compute. reflexivity.
Defined.

(** ** The teacher sets and the classes of the registry *)

Lemma elem_of_zip_fmap {A B C} (f : A → B) (g : A → C) (l : list A)
    (b : B) (c : C) :
  (b, c) ∈ zip (f <$> l) (g <$> l) ↔ ∃ x, x ∈ l ∧ b = f x ∧ c = g x.
Proof.
  induction l as [|x l IH]; cbn.
  - split; [intros H; by apply elem_of_nil in H|].
    intros (x & Hx & _). by apply elem_of_nil in Hx.
  - rewrite elem_of_cons, IH. split.
    + intros [[= -> ->]|(x' & Hx' & ? & ?)].
      * exists x. split; [by left|done].
      * exists x'. split; [by right|done].
    + intros (x' & [->|Hx']%elem_of_cons & -> & ->); [by left|].
      right. by exists x'.
Qed.

Lemma build_class_to_teachers_lookup (df : DataFrame) (cols : list string)
    (ctt : gmap string (gset string)) (c : string) (ts : gset string) :
  build_class_to_teachers df cols = Ok ctt →
  ctt !! c = Some ts → teachers_of df c = Ok ts.
Proof.
  unfold build_class_to_teachers.
  enough (∀ m : gmap string (gset string),
            for_each (λ c m, teachers ← teachers_of df c;
                             Ok (<[c := teachers]> m)) cols m = Ok ctt →
            ctt !! c = Some ts →
            teachers_of df c = Ok ts ∨ m !! c = Some ts) as Hgen.
  { intros H Hc. destruct (Hgen ∅ H Hc) as [?|Hm]; [done|].
    by rewrite lookup_empty in Hm. }
  induction cols as [|c' cols IH]; intros m; cbn [for_each].
  - intros [= ->] Hc. by right.
  - intros H Hc. apply bind_Ok in H as (m' & Hm' & H).
    apply bind_Ok in Hm' as (teachers & Ht & [= <-]).
    destruct (IH _ H Hc) as [?|Hm]; [by left|].
    destruct (decide (c' = c)) as [->|Hne].
    + rewrite lookup_insert_eq in Hm. injection Hm as <-. by left.
    + rewrite lookup_insert_ne in Hm by done. by right.
Qed.

Lemma mask_cell_true (c : cell) :
  mask_cell c = true ↔ ∃ s, c = Val s ∧ Py.strip s ≠ "".
Proof.
  unfold mask_cell. destruct c as [|s]; cbn [notna astype_str].
  - rewrite andb_false_r. split; [done|]. by intros (s & ? & _).
  - rewrite andb_true_r, bool_decide_eq_true. split.
    + intros H. by exists s.
    + by intros (s' & [= <-] & H).
Qed.

(** X5. A teacher is in the teacher set of a class iff some row of the
    frame has a value in the column of the class that is not missing and
    not blank, and the teacher is the trimmed name in that row; missing,
    empty and whitespace-only cells add no teacher. *)
Theorem teacher_set_members (df : DataFrame) valid ctt ylc complete
    (c : string) (ts : gset string) :
  build_class_teacher_map df = Ok (valid, ctt, ylc, complete) →
  ctt !! c = Some ts →
  ∃ ic id,
    col_index c (columns df) = Some ic
    ∧ col_index "Docente" (columns df) = Some id
    ∧ ∀ t, t ∈ ts ↔
           ∃ r s, r ∈ rows df ∧ cell_at r ic = Val s ∧ Py.strip s ≠ ""
                  ∧ t = Py.strip (astype_str (cell_at r id)).
Proof.
  intros (-> & -> & -> & Hctt)%build_class_teacher_map_inv Hc.
  pose proof (build_class_to_teachers_lookup _ _ _ _ _ Hctt Hc) as Ht.
  unfold teachers_of, get_col in Ht.
  destruct (col_index c (columns df)) as [ic|]; [|done].
  cbn [mbind result_bind] in Ht.
  destruct (col_index "Docente" (columns df)) as [id|]; [|done].
  cbn [mbind result_bind] in Ht. injection Ht as <-.
  exists ic, id. split; [done|]. split; [done|]. intros t.
  rewrite elem_of_list_to_set, list_elem_of_omap. split.
  - intros ([m d] & Hin & Hmd). apply elem_of_zip_fmap in Hin
      as (r & Hr & -> & ->).
    destruct (mask_cell (cell_at r ic)) eqn:Hmask; [|done].
    injection Hmd as <-. apply mask_cell_true in Hmask as (s & Hs & Hne).
    by exists r, s.
  - intros (r & s & Hr & Hs & Hne & ->).
    exists (cell_at r ic, cell_at r id). split.
    + apply elem_of_zip_fmap. by exists r.
    + assert (mask_cell (cell_at r ic) = true) as ->; [|done].
      apply mask_cell_true. by exists s.
Qed.

Lemma teacher_set_members_witness :
  ∃ ic id,
    col_index "3A" (columns frame_D) = Some ic
    ∧ col_index "Docente" (columns frame_D) = Some id
    ∧ ∀ t, t ∈ ({["Bianchi"]} : gset string) ↔
           ∃ r s, r ∈ rows frame_D ∧ cell_at r ic = Val s
                  ∧ Py.strip s ≠ ""
                  ∧ t = Py.strip (astype_str (cell_at r id)).
Proof.
  apply (teacher_set_members frame_D ["1A"; "2A"; "3A"; "4A"; "5A"]
           teachers_D classes_D ["A"] "3A" {["Bianchi"]}).
  - exact frame_D_map.
  - vm_compute. reflexivity.
Defined.

Lemma year_letter_to_class_snoc (cols : list string) (c : string) :
  build_year_letter_to_class (cols ++ [c])
  = match parse_class c with
    | Some k => <[k := c]> (build_year_letter_to_class cols)
    | None => build_year_letter_to_class cols
    end.
Proof. unfold build_year_letter_to_class. by rewrite foldl_app. Qed.

Lemma year_letter_to_class_last (cols : list string) (k : Z * string)
    (c : string) :
  build_year_letter_to_class cols !! k = Some c ↔
  ∃ l1 l2, cols = (l1 ++ c :: l2)%list ∧ parse_class c = Some k
           ∧ ∀ c', c' ∈ l2 → parse_class c' ≠ Some k.
Proof.
  induction cols as [|x cols IH] using rev_ind.
  - unfold build_year_letter_to_class. cbn [foldl fold_left].
    rewrite lookup_empty. split; [done|].
    intros (l1 & l2 & H & _). by destruct l1.
  - rewrite year_letter_to_class_snoc.
    destruct (parse_class x) as [k'|] eqn:Hx.
    + destruct (decide (k' = k)) as [->|Hne].
      * rewrite lookup_insert_eq. split.
        -- intros [= <-]. exists cols, []. split; [done|]. split; [done|].
           intros c' Hc'. by apply elem_of_nil in Hc'.
        -- intros (l1 & l2 & Heq & Hp & Hlast).
           destruct l2 as [|y l2 _] using rev_ind.
           ++ apply app_inj_tail in Heq as [_ ->]. done.
           ++ rewrite app_comm_cons, (assoc_L (++)) in Heq.
              apply app_inj_tail in Heq as [_ ->].
              destruct (Hlast y); [|done]. apply elem_of_app. right.
              by left.
      * rewrite lookup_insert_ne by done. rewrite IH. split.
        -- intros (l1 & l2 & -> & Hp & Hlast).
           exists l1, (l2 ++ [x])%list.
           split; [by rewrite <-(assoc_L (++))|]. split; [done|].
           intros c' [?| ->%list_elem_of_singleton]%elem_of_app; [auto|].
           congruence.
        -- intros (l1 & l2 & Heq & Hp & Hlast).
           destruct l2 as [|y l2 _] using rev_ind.
           ++ apply app_inj_tail in Heq as [_ ->]. congruence.
           ++ rewrite app_comm_cons, (assoc_L (++)) in Heq.
              apply app_inj_tail in Heq as [-> ->].
              exists l1, l2. split; [done|]. split; [done|].
              intros c' Hc'. apply Hlast, elem_of_app. by left.
    + rewrite IH. split.
      * intros (l1 & l2 & -> & Hp & Hlast).
        exists l1, (l2 ++ [x])%list.
        split; [by rewrite <-(assoc_L (++))|]. split; [done|].
        intros c' [?| ->%list_elem_of_singleton]%elem_of_app; [auto|].
        congruence.
      * intros (l1 & l2 & Heq & Hp & Hlast).
        destruct l2 as [|y l2 _] using rev_ind.
        -- apply app_inj_tail in Heq as [_ ->]. congruence.
        -- rewrite app_comm_cons, (assoc_L (++)) in Heq.
           apply app_inj_tail in Heq as [-> ->].
           exists l1, l2. split; [done|]. split; [done|].
           intros c' Hc'. apply Hlast, elem_of_app. by left.
Qed.

(** X6. When several valid columns stand for the same year and letter
    (names that differ in surrounding whitespace), the registry keeps the
    last of them in header order as the class of that year and letter. *)
Theorem year_letter_last_column_wins (df : DataFrame) valid ctt ylc complete
    (k : Z * string) (c : string) :
  build_class_teacher_map df = Ok (valid, ctt, ylc, complete) →
  (ylc !! k = Some c ↔
   ∃ l1 l2, valid_cols df = (l1 ++ c :: l2)%list ∧ parse_class c = Some k
            ∧ ∀ c', c' ∈ l2 → parse_class c' ≠ Some k).
Proof.
  intros (-> & -> & -> & _)%build_class_teacher_map_inv.
  apply year_letter_to_class_last.
Qed.

(** A frame in which the class 1A has two columns. *)
Definition frame_twice : DataFrame :=
  mkDataFrame ["Docente"; "1A"; " 1A"]
    [[Val "Rossi"; Val "x"; NaN]; [Val "Bianchi"; NaN; Val "x"]].

Lemma year_letter_last_column_wins_witness :
  ({[(1, "A") := " 1A"]} : gmap (Z * string) string) !! (1, "A")
  = Some " 1A" ↔
  ∃ l1 l2, valid_cols frame_twice = (l1 ++ " 1A" :: l2)%list
           ∧ parse_class " 1A" = Some (1, "A")
           ∧ ∀ c', c' ∈ l2 → parse_class c' ≠ Some (1, "A").
Proof.
  apply (year_letter_last_column_wins frame_twice ["1A"; " 1A"]
           {["1A" := {["Rossi"]}; " 1A" := {["Bianchi"]}]}
           {[(1, "A") := " 1A"]} [] (1, "A") " 1A").
  vm_compute. reflexivity.
Defined.

(** ** More on the conflict graph *)

(** X7. The conflict set of a letter holds input letters only, and for
    distinct input letters it has fewer members than there are letters:
    the degree by which the grouper sorts is below the number of letters. *)
Theorem conflict_sets_within_letters (letters : list string)
    (class_to_teachers : gmap string (gset string))
    (year_letter_to_class : gmap (Z * string) string) :
  Forall (has_all_years class_to_teachers year_letter_to_class) letters →
  ∃ conflicts,
    letters_conflict_graph letters class_to_teachers year_letter_to_class
    = Ok conflicts
    ∧ ∀ L s, conflicts !! L = Some s →
        (∀ L2, L2 ∈ s → L2 ∈ letters)
        ∧ (NoDup letters → (size s < length letters)%nat).
Proof.
  intros Hys.
  destruct (letters_conflict_graph_spec _ _ letters Hys)
    as (c & Hc & Hkeys & Hin).
  exists c. split; [done|]. intros L s Hs.
  assert (∀ L2, L2 ∈ s → L2 ∈ letters ∧ (NoDup letters → L2 ≠ L)) as Hmem.
  { intros L2 HL2.
    assert (in_conflicts c L L2) as Hl by (by exists s).
    apply Hin in Hl as (x & z & Hp & _ & Hm). split.
    - apply elem_of_combinations2 in Hp as [Hx Hz].
      destruct Hm as [[-> ->]|[-> ->]]; done.
    - intros Hnd ->. apply (combinations2_NoDup letters L Hnd).
      destruct Hm as [[Hx Hz]|[Hx Hz]]; by subst x z. }
  split; [intros L2 HL2; by apply Hmem|].
  intros Hnd.
  assert (L ∈ letters) as HL by (apply Hkeys; by eexists).
  assert (s ⊆ list_to_set letters ∖ {[L]}) as Hsub.
  { intros L2 HL2. destruct (Hmem L2 HL2) as [Hin2 Hne].
    apply elem_of_difference. split; [by apply elem_of_list_to_set|].
    rewrite elem_of_singleton. by apply Hne. }
  apply subseteq_size in Hsub.
  rewrite size_difference, size_singleton, size_list_to_set in Hsub
    by (done || (apply singleton_subseteq_l; by apply elem_of_list_to_set)).
  apply list_elem_of_lookup in HL as [i Hi].
  apply lookup_lt_Some in Hi. lia.
Qed.

Lemma conflict_sets_within_letters_witness :
  ∃ conflicts,
    letters_conflict_graph Scenario.letters Scenario.class_to_teachers
                           Scenario.year_letter_to_class = Ok conflicts
    ∧ ∀ L s, conflicts !! L = Some s →
        (∀ L2, L2 ∈ s → L2 ∈ Scenario.letters)
        ∧ (NoDup Scenario.letters → (size s < length Scenario.letters)%nat).
Proof.
  apply (conflict_sets_within_letters Scenario.letters
           Scenario.class_to_teachers Scenario.year_letter_to_class).
  exact scenario_has_all_years.
Defined.

(** Nothing but [KeyError] is raised in the stages after loading. *)
Definition raises_KeyError_only {A} (m : result A) : Prop :=
  ∀ e, m = Raise e → e = KeyError.

Lemma bind_KeyError {A B} (m : result A) (f : A → result B) :
  raises_KeyError_only m → (∀ a, raises_KeyError_only (f a)) →
  raises_KeyError_only (m ≫= f).
Proof.
  intros Hm Hf e. destruct m as [a|e']; cbn.
  - apply Hf.
  - intros [= <-]. by apply Hm.
Qed.

Lemma getitem_KeyError `{Countable K} {V} (d : gmap K V) (k : K) :
  raises_KeyError_only (getitem d k).
Proof. intros e. unfold getitem. destruct (d !! k); congruence. Qed.

Lemma Ok_KeyError {A} (a : A) : raises_KeyError_only (Ok a).
Proof. by intros e. Qed.

Lemma for_each_KeyError {A S} (body : A → S → result S) (l : list A) (s : S) :
  (∀ x s, raises_KeyError_only (body x s)) →
  raises_KeyError_only (for_each body l s).
Proof.
  intros Hbody. revert s. induction l as [|x l IH]; intros s; cbn [for_each].
  - apply Ok_KeyError.
  - apply bind_KeyError; [apply Hbody|apply IH].
Qed.

Lemma first_shared_year_KeyError ctt ylc (ys : list Z) (L1 L2 : string) :
  raises_KeyError_only (first_shared_year ctt ylc ys L1 L2).
Proof.
  induction ys as [|y ys IH]; cbn [first_shared_year].
  - apply Ok_KeyError.
  - apply bind_KeyError.
    + unfold share_teachers.
      repeat (apply bind_KeyError; [apply getitem_KeyError|intros ?]).
      apply Ok_KeyError.
    + intros []; [apply Ok_KeyError|apply IH].
Qed.

Lemma check_pair_KeyError ctt ylc (L1 L2 : string)
    (c : gmap string (gset string)) :
  raises_KeyError_only (check_pair ctt ylc L1 L2 c).
Proof.
  unfold check_pair. apply bind_KeyError.
  - apply first_shared_year_KeyError.
  - intros []; [|apply Ok_KeyError]. unfold add_conflict.
    repeat (apply bind_KeyError; [apply getitem_KeyError|intros ?]).
    apply Ok_KeyError.
Qed.

Lemma conflict_loop_KeyError ctt ylc (letters : list string)
    (c : gmap string (gset string)) :
  raises_KeyError_only (conflict_loop ctt ylc letters c).
Proof.
  revert c. induction letters as [|L1 rest IH]; intros c;
    cbn [conflict_loop].
  - apply Ok_KeyError.
  - apply bind_KeyError; [|intros ?; apply IH].
    apply for_each_KeyError. intros. apply check_pair_KeyError.
Qed.

Lemma first_shared_year_Ok_inv ctt ylc (y : Z) (ys : list Z)
    (L1 L2 : string) (b : bool) :
  first_shared_year ctt ylc (y :: ys) L1 L2 = Ok b →
  is_Some (teacher_set ctt ylc y L1) ∧ is_Some (teacher_set ctt ylc y L2).
Proof.
  cbn [first_shared_year]. intros H.
  apply bind_Ok in H as (b' & H & _). unfold share_teachers in H.
  apply bind_Ok in H as (c1 & H1 & H). apply bind_Ok in H as (c2 & H2 & H).
  apply bind_Ok in H as (t1 & Ht1 & H). apply bind_Ok in H as (t2 & Ht2 & _).
  apply getitem_Ok in H1, H2, Ht1, Ht2. unfold teacher_set.
  rewrite H1, H2. cbn. rewrite Ht1, Ht2. split; by eexists.
Qed.

Lemma inner_loop_Ok_inv ctt ylc (L1 : string) (rest : list string)
    (c c' : gmap string (gset string)) :
  for_each (check_pair ctt ylc L1) rest c = Ok c' →
  ∀ L2, L2 ∈ rest →
    ∃ b, first_shared_year ctt ylc years L1 L2 = Ok b.
Proof.
  revert c. induction rest as [|L rest IH]; intros c H L2 HL2.
  - by apply elem_of_nil in HL2.
  - cbn [for_each] in H. apply bind_Ok in H as (c1 & H1 & H).
    apply elem_of_cons in HL2 as [->|HL2]; [|by eapply IH].
    unfold check_pair in H1. apply bind_Ok in H1 as (b & Hb & _).
    by exists b.
Qed.

Lemma conflict_loop_Ok_inv ctt ylc (letters : list string)
    (c c' : gmap string (gset string)) :
  conflict_loop ctt ylc letters c = Ok c' →
  ∀ x z, (x, z) ∈ combinations2 letters →
    ∃ b, first_shared_year ctt ylc years x z = Ok b.
Proof.
  revert c. induction letters as [|L1 rest IH]; intros c H x z Hp.
  - by apply elem_of_nil in Hp.
  - cbn [conflict_loop] in H. apply bind_Ok in H as (c1 & H1 & H).
    cbn [combinations2] in Hp.
    apply elem_of_app in Hp as [Hp|Hp]; [|by eapply IH].
    apply list_elem_of_fmap in Hp as (L2 & [= -> ->] & HL2).
    by eapply inner_loop_Ok_inv.
Qed.

Lemma combinations2_covers {A} (l : list A) (x : A) :
  (2 ≤ length l)%nat → x ∈ l →
  ∃ z, (x, z) ∈ combinations2 l ∨ (z, x) ∈ combinations2 l.
Proof.
  intros Hlen [i Hi]%list_elem_of_lookup.
  destruct i as [|i].
  - destruct (lookup_lt_is_Some_2 l 1) as [z Hz]; [lia|].
    exists z. left. apply combinations2_lookup. exists 0%nat, 1%nat.
    split; [lia|done].
  - destruct (lookup_lt_is_Some_2 l 0) as [z Hz]; [lia|].
    exists z. right. apply combinations2_lookup. exists 0%nat, (S i).
    split; [lia|done].
Qed.

(** X8. The conflict graph builder looks up the class of year 1 of every
    letter as soon as there are two letters: if one of at least two
    letters has no class, or no teacher set, for year 1, the builder
    raises [KeyError]. *)
Theorem conflict_graph_missing_class (letters : list string)
    (class_to_teachers : gmap string (gset string))
    (year_letter_to_class : gmap (Z * string) string) (L : string) :
  (2 ≤ length letters)%nat → L ∈ letters →
  teacher_set class_to_teachers year_letter_to_class 1 L = None →
  letters_conflict_graph letters class_to_teachers year_letter_to_class
  = Raise KeyError.
Proof.
  intros Hlen HL Hnone.
  destruct (letters_conflict_graph letters class_to_teachers
              year_letter_to_class) as [c|e] eqn:Hc.
  - exfalso. unfold letters_conflict_graph in Hc.
    destruct (combinations2_covers letters L Hlen HL) as [z [Hp|Hp]];
      destruct (conflict_loop_Ok_inv _ _ _ _ _ Hc _ _ Hp) as [b Hb];
      rewrite years_eq in Hb;
      apply first_shared_year_Ok_inv in Hb as [[? H1] [? H2]]; congruence.
  - f_equal. by apply (conflict_loop_KeyError _ _ _ _ e Hc).
Qed.

Lemma conflict_graph_missing_class_witness :
  letters_conflict_graph ["A"; "C"] Scenario.class_to_teachers
                         Scenario.year_letter_to_class
  = Raise KeyError.
Proof.
  apply (conflict_graph_missing_class ["A"; "C"] Scenario.class_to_teachers
           Scenario.year_letter_to_class "C").
  - cbn. lia.
  - by right; left.
  - vm_compute. reflexivity.
Defined.

(** ** More on the validator *)

Lemma no_shared_teacher_outcome (ctt : gmap string (gset string))
    (pairs : list (string * string)) :
  match no_shared_teacher ctt pairs with
  | Ok true =>
      ∀ c1 c2, (c1, c2) ∈ pairs →
        ∃ t1 t2, ctt !! c1 = Some t1 ∧ ctt !! c2 = Some t2 ∧ t1 ∩ t2 = ∅
  | Ok false =>
      ∃ c1 c2 t1 t2, (c1, c2) ∈ pairs ∧ ctt !! c1 = Some t1
                     ∧ ctt !! c2 = Some t2 ∧ t1 ∩ t2 ≠ ∅
  | Raise e =>
      e = KeyError
      ∧ ∃ c1 c2, (c1, c2) ∈ pairs ∧ (ctt !! c1 = None ∨ ctt !! c2 = None)
  end.
Proof.
  induction pairs as [|[c1 c2] pairs IH]; cbn [no_shared_teacher].
  - intros ? ? H. by apply elem_of_nil in H.
  - destruct (ctt !! c1) as [t1|] eqn:H1.
    2:{ unfold getitem. rewrite H1. cbn. split; [done|].
        exists c1, c2. split; [by left|by left]. }
    rewrite (getitem_lookup _ _ _ H1). cbn [mbind result_bind].
    destruct (ctt !! c2) as [t2|] eqn:H2.
    2:{ unfold getitem. rewrite H2. cbn. split; [done|].
        exists c1, c2. split; [by left|by right]. }
    rewrite (getitem_lookup _ _ _ H2). cbn [mbind result_bind].
    destruct (bool_decide (t1 ∩ t2 ≠ ∅)) eqn:Hd.
    + apply bool_decide_eq_true in Hd. exists c1, c2, t1, t2.
      split; [by left|done].
    + apply bool_decide_eq_false in Hd.
      destruct (no_shared_teacher ctt pairs) as [[]|e].
      * intros c1' c2' [[= -> ->]|Hin]%elem_of_cons; [|by apply IH].
        exists t1, t2. split; [done|]. split; [done|].
        by destruct (decide (t1 ∩ t2 = ∅)).
      * destruct IH as (c1' & c2' & t1' & t2' & Hin & ?).
        exists c1', c2', t1', t2'. split; [by right|done].
      * destruct IH as (-> & c1' & c2' & Hin & ?). split; [done|].
        exists c1', c2'. split; [by right|done].
Qed.

(** X9. Whatever the row and the mapping, [row_ok] answers [False] only
    for a row with two non-empty labels that share a teacher, answers
    [True] only when every two non-empty labels are classes of the mapping
    with disjoint teacher sets, and raises only [KeyError], for a row
    with a non-empty label that is no class of the mapping. *)
Theorem row_ok_outcomes (class_to_teachers : gmap string (gset string))
    (class_names : list string) :
  match row_ok class_to_teachers class_names with
  | Ok true =>
      ∀ i j c1 c2, (i < j)%nat →
        class_names !! i = Some c1 → class_names !! j = Some c2 →
        c1 ≠ "" → c2 ≠ "" →
        ∃ t1 t2, class_to_teachers !! c1 = Some t1
                 ∧ class_to_teachers !! c2 = Some t2 ∧ t1 ∩ t2 = ∅
  | Ok false =>
      ∃ i j c1 c2 t1 t2, (i < j)%nat
        ∧ class_names !! i = Some c1 ∧ class_names !! j = Some c2
        ∧ c1 ≠ "" ∧ c2 ≠ ""
        ∧ class_to_teachers !! c1 = Some t1
        ∧ class_to_teachers !! c2 = Some t2 ∧ t1 ∩ t2 ≠ ∅
  | Raise e =>
      e = KeyError
      ∧ ∃ c, c ∈ class_names ∧ c ≠ "" ∧ class_to_teachers !! c = None
  end.
Proof.
  unfold row_ok.
  pose proof (no_shared_teacher_outcome class_to_teachers
                (combinations2 (filter (λ c, c ≠ "") class_names))) as H.
  destruct (no_shared_teacher _ _) as [[]|e].
  - intros i j c1 c2 Hij Hi Hj Hn1 Hn2. apply H.
    apply combinations2_filter. split; [|done].
    apply combinations2_lookup. by exists i, j.
  - destruct H as (c1 & c2 & t1 & t2 & Hin & H1 & H2 & Hne).
    apply combinations2_filter in Hin as (Hin & Hn1 & Hn2).
    apply combinations2_lookup in Hin as (i & j & Hij & Hi & Hj).
    by exists i, j, c1, c2, t1, t2.
  - destruct H as (-> & c1 & c2 & Hin & Hnone). split; [done|].
    apply combinations2_filter in Hin as (Hin & Hn1 & Hn2).
    apply elem_of_combinations2 in Hin as [Hc1 Hc2].
    destruct Hnone; [by exists c1|by exists c2].
Qed.

(** ** More on the tables *)

Lemma loc_build_grid_KeyError (ylc : gmap (Z * string) string)
    (g : list string) (y : Z) (L : string) :
  ¬ (1 ≤ y ≤ 5 ∧ L ∈ g) → loc (build_grid ylc g) y L = Raise KeyError.
Proof.
  intros Hnot. unfold loc, build_grid.
  change (py_range 1 6) with [1; 2; 3; 4; 5].
  cbn [fmap list_fmap list_find]. cbv beta.
  assert (L ∈ g → ¬ 1 ≤ y ≤ 5) as Hy by tauto.
  assert (∀ y', getitem (build_row ylc y' g) L = Raise KeyError
                ∨ L ∈ g) as Hrow.
  { intros y'. unfold getitem. rewrite build_row_lookup.
    case_decide; [by right|by left]. }
  repeat case_decide; cbn in *; subst;
    try done;
    match goal with
    | |- getitem (build_row ylc ?y' g) L = _ =>
        destruct (Hrow y') as [->|Hin]; [done|]; apply Hy in Hin; lia
    end.
Qed.

(** X10. For groups whose letters differ from the key ["Anno"] of the
    year, the tables are numbered from 1 in the order of the groups and
    keep the letters of their group; reading the cell of a year 1..5 and
    a letter of the group gives the class of the registry, or the empty
    string when the registry has none; reading any other year or letter
    raises [KeyError]. *)
Theorem build_tables_read_back (groups : list (list string))
    (year_letter_to_class : gmap (Z * string) string) :
  (∀ g, g ∈ groups → "Anno" ∉ g) →
  length (build_tables groups year_letter_to_class) = length groups
  ∧ ∀ i g, groups !! i = Some g →
      ∃ t, build_tables groups year_letter_to_class !! i = Some t
           ∧ gi t = Z.of_nat i + 1
           ∧ letters_of_group t = g
           ∧ index (tab t) = [1; 2; 3; 4; 5]
           ∧ ∀ y L,
               loc (tab t) y L
               = if decide (1 ≤ y ≤ 5 ∧ L ∈ g)
                 then Ok (default "" (year_letter_to_class !! (y, L)))
                 else Raise KeyError.
Proof.
  intros _. unfold build_tables. split; [apply length_imap|].
  intros i g Hi. eexists. rewrite list_lookup_imap, Hi. cbn.
  split; [done|]. split; [done|]. split; [done|]. split; [done|].
  intros y L. case_decide as Hd.
  - destruct Hd. by apply loc_build_grid.
  - by apply loc_build_grid_KeyError.
Qed.

Lemma build_tables_read_back_witness :
  length (build_tables [["A"; "Q"]; []] classes_D)
  = length [["A"; "Q"]; ([] : list string)]
  ∧ ∀ i g, [["A"; "Q"]; []] !! i = Some g →
      ∃ t, build_tables [["A"; "Q"]; []] classes_D !! i = Some t
           ∧ gi t = Z.of_nat i + 1
           ∧ letters_of_group t = g
           ∧ index (tab t) = [1; 2; 3; 4; 5]
           ∧ ∀ y L,
               loc (tab t) y L
               = if decide (1 ≤ y ≤ 5 ∧ L ∈ g)
                 then Ok (default "" (classes_D !! (y, L)))
                 else Raise KeyError.
Proof.
  apply (build_tables_read_back [["A"; "Q"]; []] classes_D).
  apply Forall_forall. apply (bool_decide_unpack _). vm_compute. exact I.
Defined.

Lemma map_result_length {A B} (f : A → result B) (l : list A) (ys : list B) :
  map_result f l = Ok ys → length ys = length l.
Proof.
  revert ys. induction l as [|x l IH]; intros ys; cbn [map_result].
  - by intros [= <-].
  - intros H. apply bind_Ok in H as (y & _ & H).
    apply bind_Ok in H as (ys' & Hys' & [= <-]). cbn. f_equal. by apply IH.
Qed.

Lemma validate_rows_count (tables : list Table)
    (ctt : gmap string (gset string)) (records : list Validation) :
  validate_rows tables ctt = Ok records →
  length records = length (rows_of tables).
Proof.
  unfold validate_rows, rows_of. intros H.
  apply bind_Ok in H as (rows & Hrows & [= <-]).
  revert rows Hrows. induction tables as [|t tables IH]; intros rows;
    cbn [map_result].
  - by intros [= <-].
  - intros H. apply bind_Ok in H as (recs & Hrecs & H).
    apply bind_Ok in H as (rows' & Hrows' & [= <-]).
    cbn [concat fmap list_fmap]. rewrite !length_app, (IH _ Hrows').
    f_equal. unfold validate_table in Hrecs.
    apply map_result_length in Hrecs. by rewrite length_fmap.
Qed.

Lemma rows_of_build_tables (groups : list (list string))
    (ylc : gmap (Z * string) string) :
  length (rows_of (build_tables groups ylc)) = (5 * length groups)%nat.
Proof.
  rewrite <-(length_imap (λ i g, mkTable (Z.of_nat i + 1) g
                                         (build_grid ylc g)) groups).
  fold (build_tables groups ylc).
  assert (Forall (λ t, length (index (tab t)) = 5%nat)
                 (build_tables groups ylc)) as Hall.
  { apply Forall_forall. intros t Ht.
    destruct (build_tables_cell groups ylc t Ht) as (_ & -> & _). done. }
  unfold rows_of. induction Hall as [|t tables Ht _ IH]; [done|].
  cbn [fmap list_fmap concat length]. rewrite length_app, length_fmap, IH, Ht.
  lia.
Qed.

(** X11. The assembler and the validator fit together on any groups whose
    letters differ from the key ["Anno"] of the year, also groups of
    letters that are not complete or not in the registry: when the classes
    of the registry are classes of the teacher mapping, validating the
    assembled tables does not raise and gives five records per group; the
    empty cells of missing classes are left out of the check. *)
Theorem assemble_then_validate (groups : list (list string))
    (class_to_teachers : gmap string (gset string))
    (year_letter_to_class : gmap (Z * string) string) :
  (∀ g, g ∈ groups → "Anno" ∉ g) →
  (∀ k c, year_letter_to_class !! k = Some c →
          is_Some (class_to_teachers !! c)) →
  ∃ records,
    validate_rows (build_tables groups year_letter_to_class)
                  class_to_teachers = Ok records
    ∧ length records = (5 * length groups)%nat.
Proof.
  intros _ Hcons.
  destruct (validate_rows_Ok (build_tables groups year_letter_to_class)
              class_to_teachers) as (records & Hrecords).
  - intros t y Ht Hy.
    destruct (build_tables_cell groups year_letter_to_class t Ht)
      as (_ & _ & Hcell).
    exists ((λ L, default "" (year_letter_to_class !! (y, L)))
              <$> letters_of_group t).
    split.
    + apply map_result_fmap. intros L HL. by apply Hcell.
    + unfold known_classes. apply Forall_fmap, Forall_forall.
      intros L HL. cbn.
      destruct (year_letter_to_class !! (y, L)) as [c|] eqn:Hc; cbn.
      * intros _. by eapply Hcons.
      * done.
  - exists records. split; [done|].
    rewrite (validate_rows_count _ _ _ Hrecords).
    apply rows_of_build_tables.
Qed.

Lemma assemble_then_validate_witness :
  ∃ records,
    validate_rows (build_tables [["A"; "Q"]; []] classes_D) teachers_D
    = Ok records
    ∧ length records = (5 * length [["A"; "Q"]; ([] : list string)])%nat.
Proof.
  apply (assemble_then_validate [["A"; "Q"]; []] teachers_D classes_D).
  - apply Forall_forall. apply (bool_decide_unpack _). vm_compute. exact I.
  - change (map_Forall (λ _ c, is_Some (teachers_D !! c)) classes_D).
    apply (bool_decide_unpack _). vm_compute. exact I.
Defined.

(** ** Trimming *)

Lemma string_app_cons (a : ascii) (s1 s2 : string) :
  String a s1 +:+ s2 = String a (s1 +:+ s2).
Proof. reflexivity. Qed.

Lemma string_app_nil_l (s : string) : "" +:+ s = s.
Proof. reflexivity. Qed.

Lemma string_app_assoc (s1 s2 s3 : string) :
  (s1 +:+ s2) +:+ s3 = s1 +:+ (s2 +:+ s3).
Proof.
  induction s1 as [|a s1 IH]; [done|].
  by rewrite !string_app_cons, IH.
Qed.

Lemma string_app_nil_r (s : string) : s +:+ "" = s.
Proof.
  induction s as [|a s IH]; [done|]. by rewrite string_app_cons, IH.
Qed.

Lemma string_rev_app_spec (s1 s2 : string) :
  String.rev_app s1 s2 = String.rev s1 +:+ s2.
Proof.
  unfold String.rev. revert s2.
  induction s1 as [|a s1 IH]; intros s2; cbn [String.rev_app]; [done|].
  rewrite (IH (String a s2)), (IH (String a "")).
  by rewrite string_app_assoc.
Qed.

Lemma string_rev_cons (a : ascii) (s : string) :
  String.rev (String a s) = String.rev s +:+ String a "".
Proof.
  unfold String.rev at 1. cbn [String.rev_app]. apply string_rev_app_spec.
Qed.

Lemma string_rev_app (s1 s2 : string) :
  String.rev (s1 +:+ s2) = String.rev s2 +:+ String.rev s1.
Proof.
  induction s1 as [|a s1 IH].
  - by rewrite string_app_nil_l, string_app_nil_r.
  - by rewrite string_app_cons, !string_rev_cons, IH, string_app_assoc.
Qed.

Lemma string_rev_involutive (s : string) : String.rev (String.rev s) = s.
Proof.
  induction s as [|a s IH]; [done|].
  by rewrite string_rev_cons, string_rev_app, IH.
Qed.

(** The string does not start with a whitespace character. *)
Definition trimmed_l (s : string) : Prop :=
  match s with
  | EmptyString => True
  | String a _ => Py.is_space a = false
  end.

Lemma lstrip_trimmed (s : string) : trimmed_l (Py.lstrip s).
Proof.
  induction s as [|a s IH]; cbn; [done|].
  by destruct (Py.is_space a) eqn:Ha.
Qed.

Lemma lstrip_id (s : string) : trimmed_l s → Py.lstrip s = s.
Proof. destruct s as [|a s]; cbn; [done|]. by intros ->. Qed.

Lemma lstrip_suffix (s : string) : ∃ p, s = p +:+ Py.lstrip s.
Proof.
  induction s as [|a s [p IH]]; [by exists ""|]. cbn [Py.lstrip].
  destruct (Py.is_space a).
  - exists (String a p). by rewrite string_app_cons, <-IH.
  - by exists "".
Qed.

Lemma rstrip_trimmed_l (s : string) : trimmed_l s → trimmed_l (Py.rstrip s).
Proof.
  intros Hs. unfold Py.rstrip.
  destruct (lstrip_suffix (String.rev s)) as [p Hp].
  apply (f_equal String.rev) in Hp.
  rewrite string_rev_involutive, string_rev_app in Hp.
  destruct (String.rev (Py.lstrip (String.rev s))) as [|a w]; [done|].
  subst s. exact Hs.
Qed.

Lemma rstrip_rstrip (s : string) : Py.rstrip (Py.rstrip s) = Py.rstrip s.
Proof.
  unfold Py.rstrip. rewrite string_rev_involutive.
  by rewrite (lstrip_id (Py.lstrip _)) by apply lstrip_trimmed.
Qed.

Lemma strip_idempotent (s : string) : Py.strip (Py.strip s) = Py.strip s.
Proof.
  unfold Py.strip.
  rewrite (lstrip_id (Py.rstrip (Py.lstrip s)))
    by apply rstrip_trimmed_l, lstrip_trimmed.
  apply rstrip_rstrip.
Qed.

Lemma strip_trimmed (s : string) :
  trimmed_l (Py.strip s) ∧ trimmed_l (String.rev (Py.strip s)).
Proof.
  unfold Py.strip. split.
  - apply rstrip_trimmed_l, lstrip_trimmed.
  - unfold Py.rstrip. rewrite string_rev_involutive. apply lstrip_trimmed.
Qed.

Lemma teachers_of_elem (df : DataFrame) (c : string) (ts : gset string)
    (t : string) :
  teachers_of df c = Ok ts → t ∈ ts → ∃ s, t = Py.strip s.
Proof.
  unfold teachers_of. intros H Ht.
  apply bind_Ok in H as (col & _ & H).
  apply bind_Ok in H as (doc & _ & [= <-]).
  apply elem_of_list_to_set, list_elem_of_omap in Ht as ([m d] & _ & Hmd).
  destruct (mask_cell m); [|done]. injection Hmd as <-. by eexists.
Qed.

(** X12. The teacher names of the registry are trimmed: a member of a
    teacher set has no whitespace at its start or end and is left as it is
    by a further trimming, so that spellings of a name that differ in
    surrounding whitespace are one teacher. *)
Theorem teacher_names_trimmed (df : DataFrame) valid ctt ylc complete
    (c : string) (ts : gset string) (t : string) :
  build_class_teacher_map df = Ok (valid, ctt, ylc, complete) →
  ctt !! c = Some ts → t ∈ ts →
  Py.strip t = t ∧ trimmed_l t ∧ trimmed_l (String.rev t).
Proof.
  intros (-> & -> & -> & Hctt)%build_class_teacher_map_inv Hc Ht.
  pose proof (build_class_to_teachers_lookup _ _ _ _ _ Hctt Hc) as Hts.
  destruct (teachers_of_elem df c ts t Hts Ht) as [s ->].
  split; [apply strip_idempotent|apply strip_trimmed].
Qed.

(** A frame with one teacher spelled in two ways. *)
Definition frame_spellings : DataFrame :=
  mkDataFrame ["Docente"; "1A"]
    [[Val " Rossi"; Val "x"]; [Val "Rossi  "; Val "x"]].

Lemma teacher_names_trimmed_witness :
  Py.strip "Rossi" = "Rossi" ∧ trimmed_l "Rossi"
  ∧ trimmed_l (String.rev "Rossi").
Proof.
  apply (teacher_names_trimmed frame_spellings ["1A"]
           {["1A" := {["Rossi"]}]} {[(1, "A") := "1A"]} []
           "1A" {["Rossi"]} "Rossi").
  - vm_compute. reflexivity.
  - vm_compute. reflexivity.
  - set_solver.
Defined.

(** X13. [parse_class] reads a name as it reads the trimmed name, and what
    it returns is a year between 1 and 5 with a letter that is a single
    character between A and Z. *)
Theorem parse_class_trimmed_range (c : string) :
  parse_class (Py.strip c) = parse_class c
  ∧ ∀ y L, parse_class c = Some (y, L) →
      1 ≤ y ≤ 5
      ∧ ∃ l, L = String l EmptyString
             ∧ (Py.code "A" ≤ Py.code l ≤ Py.code "Z")%N.
Proof.
  split.
  - unfold parse_class. by rewrite strip_idempotent.
  - intros y L H. split; [by eapply parse_class_year|].
    apply parse_class_Some in H as (d & l & H & _ & ->).
    apply fullmatch_class_Some in H as (_ & _ & Hl). by exists l.
Qed.

(** ** The summary of the groups ([app.py]) *)

(** A row of the summary: the number of the table, its letters joined by
    [" | "], and the number of its columns. *)
Record Summary := mkSummary {
  s_tabella : Z;
  s_lettere : string;
  s_n_colonne : Z
}.

(** [[{"Tabella": gi, "Lettere (colonne)": " | ".join(g),
       "N. colonne": len(g)} for gi, g, _ in tables]] *)
Definition summary (tables : list Table) : list Summary :=
  (λ t, mkSummary (gi t) (String.concat " | " (letters_of_group t))
                  (Z.of_nat (length (letters_of_group t)))) <$> tables.

Lemma build_tables_letters (groups : list (list string))
    (ylc : gmap (Z * string) string) :
  letters_of_group <$> build_tables groups ylc = groups.
Proof.
  apply list_eq. intros i. unfold build_tables.
  rewrite list_lookup_fmap, list_lookup_imap. by destruct (groups !! i).
Qed.

Lemma build_tables_numbers (groups : list (list string))
    (ylc : gmap (Z * string) string) :
  gi <$> build_tables groups ylc = seqZ 1 (Z.of_nat (length groups)).
Proof.
  apply list_eq. intros i. unfold build_tables.
  rewrite list_lookup_fmap, list_lookup_imap.
  destruct (groups !! i) as [g|] eqn:Hi; cbn.
  - apply lookup_lt_Some in Hi. rewrite lookup_seqZ_lt by lia.
    f_equal. lia.
  - apply lookup_ge_None in Hi. by rewrite lookup_seqZ_ge by lia.
Qed.

Lemma sum_lengths (groups : list (list string)) :
  foldr Z.add 0 ((λ g, Z.of_nat (length g)) <$> groups)
  = Z.of_nat (length (concat groups)).
Proof.
  induction groups as [|g groups IH]; [done|].
  cbn [fmap list_fmap foldr concat]. rewrite IH, length_app. lia.
Qed.

(** X14. In the summary of the tables the main flow shows, the tables are
    numbered 1, 2, ..., every table has between 1 and 4 columns, and the
    numbers of columns add up to the number of complete letters of the
    loaded frame: every complete letter is a column of one table. *)
Theorem summary_of_main (uploaded : DataFrame)
    (tables : list Table) (validation : list Validation) :
  main uploaded = Shown tables validation →
  ∃ df,
    load_df uploaded = Ok df
    ∧ s_tabella <$> summary tables = seqZ 1 (Z.of_nat (length tables))
    ∧ Forall (λ r, 1 ≤ s_n_colonne r ≤ 4) (summary tables)
    ∧ foldr Z.add 0 (s_n_colonne <$> summary tables)
      = Z.of_nat (length (complete_letters_of
                            (build_year_letter_to_class (valid_cols df)))).
Proof.
  unfold main. intros H.
  destruct (load_df uploaded) as [df|e] eqn:Hload; [|done].
  destruct (build_class_teacher_map_Ok df (load_df_Ok_docente _ _ Hload))
    as (ctt & Hmap & _).
  rewrite Hmap in H.
  destruct (complete_letters_of (build_year_letter_to_class (valid_cols df)))
    as [|L complete] eqn:Hcomplete; [done|].
  rewrite <-Hcomplete in *.
  destruct (organize _ ctt _) as [[tables' validation']|e] eqn:Horg; [|done].
  injection H as -> ->.
  apply organize_inv in Horg as (conflicts & groups & Hc & Hg & -> & _).
  destruct (registry_complete_letters df _ _ _ _ Hmap) as (_ & _ & Hys).
  destruct (conflict_graph_distinct _ _ _ _ Hys Hc) as [Hkeys _].
  destruct (greedy_group_letters_run _ conflicts 4 Hkeys)
    as (groups' & Hg' & Hrun).
  rewrite Hg in Hg'. injection Hg' as <-.
  exists df. split; [done|]. unfold summary. split; [|split].
  - rewrite <-list_fmap_compose.
    etrans; [apply build_tables_numbers|].
    unfold build_tables. by rewrite length_imap.
  - apply Forall_fmap.
    assert (Forall (λ g, 1 ≤ Z.of_nat (length g) ≤ 4) groups) as Hsize.
    { eapply first_fit_run_sizes; [|exact Hrun|constructor]. lia. }
    rewrite <-(build_tables_letters groups
                 (build_year_letter_to_class (valid_cols df))) in Hsize.
    by apply Forall_fmap in Hsize.
  - rewrite <-list_fmap_compose.
    change (s_n_colonne ∘ _)
      with ((λ g, Z.of_nat (length g)) ∘ letters_of_group).
    rewrite list_fmap_compose, build_tables_letters, sum_lengths.
    rewrite (first_fit_run_Permutation _ _ _ _ _ Hrun). cbn [concat].
    by rewrite app_nil_r, letters_sorted_Permutation.
Qed.

Lemma summary_of_main_witness :
  ∃ df,
    load_df frame_D = Ok df
    ∧ s_tabella <$> summary [table_D] = seqZ 1 (Z.of_nat (length [table_D]))
    ∧ Forall (λ r, 1 ≤ s_n_colonne r ≤ 4) (summary [table_D])
    ∧ foldr Z.add 0 (s_n_colonne <$> summary [table_D])
      = Z.of_nat (length (complete_letters_of
                            (build_year_letter_to_class (valid_cols df)))).
Proof.
  apply (summary_of_main frame_D [table_D]
           ((λ y, mkValidation 1 y true) <$> [1; 2; 3; 4; 5])).
  vm_compute. reflexivity.
Defined.

Example summary_example :
  summary [mkTable 1 ["A"; "C"; "E"] []; mkTable 2 ["B"] []]
  = [mkSummary 1 "A | C | E" 3; mkSummary 2 "B" 1].
Proof. reflexivity. Qed.

(** ** Loading keeps the class columns *)

Lemma locates_not_class (c : string) : locates c → parse_class c = None.
Proof.
  intros [->|Hl]; [done|]. unfold parse_class, Py.fullmatch_class.
  by destruct (Py.strip c) as [|d [|l [|x s]]].
Qed.

Lemma valid_cols_rename (df : DataFrame) (c : string) :
  parse_class c = None → valid_cols (rename df c "Docente") = valid_cols df.
Proof.
  intros Hc. unfold valid_cols, class_cols, rename. cbn [columns].
  induction (columns df) as [|x cols IH]; [done|].
  cbn [fmap list_fmap].
  destruct (decide (x = c)) as [->|Hne].
  - rewrite (filter_cons _ "Docente"), decide_False by (by intros ?).
    rewrite IH, (filter_cons _ c).
    destruct (decide (c ≠ "Docente")); [|done].
    rewrite filter_cons, decide_False; [done|].
    rewrite Hc. by intros [? ?].
  - rewrite !(filter_cons _ x).
    destruct (decide (x ≠ "Docente")); [|exact IH].
    rewrite !(filter_cons _ x).
    destruct (decide (is_Some (parse_class x))); [f_equal|]; exact IH.
Qed.

Lemma col_index_rename_ne (c new x : string) (cols : list string) :
  x ≠ c → x ≠ new →
  col_index x ((λ y, if decide (y = c) then new else y) <$> cols)
  = col_index x cols.
Proof.
  intros Hc Hnew. induction cols as [|y cols IH]; [done|].
  cbn [fmap list_fmap]. rewrite !col_index_cons, IH.
  destruct (decide (y = c)) as [->|?].
  - by rewrite !decide_False by done.
  - done.
Qed.

Lemma cell_at_insert_ne (r : list cell) (i j : nat) (v : cell) :
  i ≠ j →
  cell_at (<[i := v]> (r ++ replicate (S i - length r) NaN)%list) j
  = cell_at r j.
Proof.
  intros Hne. unfold cell_at. rewrite list_lookup_insert_ne by done.
  destruct (decide (j < length r)%nat).
  - by rewrite lookup_app_l.
  - rewrite lookup_app_r by lia. rewrite (lookup_ge_None_2 r) by lia.
    destruct (replicate _ _ !! _) as [x|] eqn:Hx; [|done].
    by apply lookup_replicate in Hx as [-> _].
Qed.

Lemma get_col_set_col_ne (df : DataFrame) (c x : string)
    (values : list cell) :
  x ≠ c → length values = length (rows df) →
  get_col (set_col df c values) x = get_col df x.
Proof.
  intros Hne Hlen. unfold set_col.
  destruct (col_index c (columns df)) as [i|] eqn:Hi; [|done].
  unfold get_col. cbn [columns rows].
  destruct (col_index x (columns df)) as [j|] eqn:Hj; [|done].
  f_equal.
  assert (i ≠ j) as Hij.
  { intros ->. unfold col_index in Hi, Hj.
    apply fmap_Some in Hi as ([? ?] & Hi & [= <-]).
    apply fmap_Some in Hj as ([? ?] & Hj & [= <-]).
    apply list_find_Some in Hi as (Hi & -> & _).
    apply list_find_Some in Hj as (Hj & -> & _). congruence. }
  revert values Hlen. induction (rows df) as [|r rs IH];
    intros [|v values] Hlen; try done.
  cbn [zip_with fmap list_fmap]. f_equal.
  - by apply cell_at_insert_ne.
  - apply IH. cbn in Hlen. lia.
Qed.

(** X15. Loading changes the teacher column only: the loaded frame has the
    valid class columns of the parsed frame, in the same order and with
    the same cells, and as many rows. *)
Theorem load_df_keeps_classes (parsed df : DataFrame) :
  load_df parsed = Ok df →
  valid_cols df = valid_cols parsed
  ∧ length (rows df) = length (rows parsed)
  ∧ ∀ c, c ∈ valid_cols parsed → get_col df c = get_col parsed c.
Proof.
  unfold load_df. intros H. case_decide as Hd; [|done].
  apply bind_Ok in H as (docente & Hdoc & [= <-]).
  assert (length docente = length (rows (normalize_docente parsed))) as Hlen.
  { unfold get_col in Hdoc.
    destruct (col_index _ _); [|done]. injection Hdoc as <-.
    by rewrite length_fmap. }
  assert (valid_cols (normalize_docente parsed) = valid_cols parsed
          ∧ rows (normalize_docente parsed) = rows parsed
          ∧ ∀ c, c ∈ valid_cols parsed →
                 get_col (normalize_docente parsed) c = get_col parsed c)
    as (Hvalid & Hrows & Hcols).
  { unfold normalize_docente. case_decide; [done|].
    destruct (list_find _ _) as [[i c0]|] eqn:Hfind; [|done].
    apply list_find_Some in Hfind as (_ & Hc0 & _).
    apply is_docente_true in Hc0.
    assert (parse_class c0 = None) as Hp
      by (apply locates_not_class; by right).
    split; [by apply valid_cols_rename|]. split; [done|].
    intros c [_ [k Hk]]%elem_of_valid_cols.
    unfold get_col, rename. cbn [columns rows].
    rewrite col_index_rename_ne; [done|congruence|].
    intros ->. discriminate. }
  destruct (get_col_set_col (normalize_docente parsed) "Docente"
              ((λ c, Val (Py.strip (astype_str c))) <$> docente) Hd)
    as [_ Hsame]; [by rewrite length_fmap|].
  split; [|split].
  - rewrite <-Hvalid. unfold valid_cols, class_cols. by rewrite Hsame.
  - rewrite <-Hrows. unfold set_col. destruct (col_index _ _); [|done]. cbn [rows].
    rewrite length_zip_with_l_eq; [done|]. by rewrite length_fmap.
  - intros c Hc. rewrite get_col_set_col_ne; [by apply Hcols| |].
    + intros ->. apply elem_of_valid_cols in Hc as [_ [k Hk]]. discriminate.
    + by rewrite length_fmap.
Qed.

Lemma load_df_keeps_classes_witness :
  valid_cols (mkDataFrame ["Docente"; "1A"] [[Val "Rossi"; Val "x"]])
  = valid_cols frame_padded
  ∧ length (rows (mkDataFrame ["Docente"; "1A"] [[Val "Rossi"; Val "x"]]))
    = length (rows frame_padded)
  ∧ ∀ c, c ∈ valid_cols frame_padded →
         get_col (mkDataFrame ["Docente"; "1A"] [[Val "Rossi"; Val "x"]]) c
         = get_col frame_padded c.
Proof.
  apply (load_df_keeps_classes frame_padded
           (mkDataFrame ["Docente"; "1A"] [[Val "Rossi"; Val "x"]])).
  vm_compute. reflexivity.
Defined.

(** ** The list of complete letters *)

(** X16. The complete letters the registry returns are in lexicographic
    order without repetition, and each is a single character between A
    and Z that has a valid column for every year 1..5. *)
Theorem complete_letters_sorted (df : DataFrame) valid ctt ylc complete :
  build_class_teacher_map df = Ok (valid, ctt, ylc, complete) →
  StronglySorted String.le complete
  ∧ NoDup complete
  ∧ ∀ L, L ∈ complete →
      (∃ l, L = String l EmptyString
            ∧ (Py.code "A" ≤ Py.code l ≤ Py.code "Z")%N)
      ∧ ∀ y, 1 ≤ y ≤ 5 →
          ∃ c, c ∈ valid ∧ parse_class c = Some (y, L)
               ∧ ylc !! (y, L) = Some c.
Proof.
  intros Hmap.
  destruct (registry_complete_letters df valid ctt ylc complete Hmap)
    as (Hnd & Hs & _).
  split; [done|]. split; [done|]. intros L HL.
  assert (∀ y, 1 ≤ y ≤ 5 →
            ∃ c, c ∈ valid ∧ parse_class c = Some (y, L)
                 ∧ ylc !! (y, L) = Some c) as Hyears.
  { intros y Hy.
    destruct (registry_class_of df valid ctt ylc complete y L Hmap HL Hy)
      as (c & Hc & Hin & Hp & _).
    by exists c. }
  split; [|done].
  destruct (Hyears 1) as (c & _ & Hp & _); [lia|].
  apply parse_class_Some in Hp as (d & l & Hm & _ & ->).
  apply fullmatch_class_Some in Hm as (_ & _ & Hl). by exists l.
Qed.

Lemma complete_letters_sorted_witness :
  StronglySorted String.le ["A"]
  ∧ NoDup ["A"]
  ∧ ∀ L, L ∈ ["A"] →
      (∃ l, L = String l EmptyString
            ∧ (Py.code "A" ≤ Py.code l ≤ Py.code "Z")%N)
      ∧ ∀ y, 1 ≤ y ≤ 5 →
          ∃ c, c ∈ ["1A"; "2A"; "3A"; "4A"; "5A"]
               ∧ parse_class c = Some (y, L)
               ∧ classes_D !! (y, L) = Some c.
Proof.
  apply (complete_letters_sorted frame_D ["1A"; "2A"; "3A"; "4A"; "5A"]
           teachers_D classes_D ["A"]).
  exact frame_D_map.
Defined.
